(** * The authentication store of homeassistant/auth/auth_store.py

    A shallow embedding of [AuthStore]: the persisted document, the
    in-memory entities, the load-and-migrate pass, the mutating
    operations and the serialisation, followed by the properties the
    specification states about them.

    Python dicts are finite maps ([gmap]); iteration over a dict is
    iteration over [map_to_list].  A [models.User] argument of an
    operation is represented by its id: the object is the one [_users]
    holds under that id.  Exceptions are values of [exn]; a method of the
    store returns its outcome together with the store as the exception
    (or the return) leaves it. *)

From Stdlib Require Import Ascii.
From stdpp Require Import base option list strings gmap fin_maps fin_sets.

(** ** Values of type [Any] (decoded JSON) *)

#[local] Unset Elimination Schemes.
Inductive Any : Type :=
  | ANone
  | ABool (b : bool)
  | ANum (n : Z)
  | AStr (s : string)
  | AList (l : list Any)
  | ADict (d : list (string * Any)).
#[local] Set Elimination Schemes.

(** ** What the store imports from modules that are not part of the sources

    [.const] (the reserved group ids), [.permissions.system_policies]
    (the three policies), [homeassistant.util.dt] and [datetime]
    (timestamps and durations) and the attribute defaults of
    [models.User].  The reserved ids are pairwise distinct. *)

Class Imports := {
  GROUP_ID_ADMIN : string;
  GROUP_ID_USER : string;
  GROUP_ID_READ_ONLY : string;
  PolicyType : Type;
  ADMIN_POLICY : PolicyType;
  USER_POLICY : PolicyType;
  READ_ONLY_POLICY : PolicyType;
  datetime : Type;
  timedelta : Type;
  float : Type;
  parse_datetime : string → option datetime;
  isoformat : datetime → string;
  timedelta_seconds : float → timedelta;
  total_seconds : timedelta → float;
  User_default_is_owner : bool;
  User_default_is_active : bool;
  User_default_system_generated : bool;
  User_default_local_only : bool;
  GROUP_IDS_distinct :
    NoDup [GROUP_ID_ADMIN; GROUP_ID_USER; GROUP_ID_READ_ONLY];
}.

Definition GROUP_NAME_ADMIN : string := "Administrators".
Definition GROUP_NAME_USER : string := "Users".
Definition GROUP_NAME_READ_ONLY : string := "Read Only".

Definition INITIAL_LOAD_SAVE_DELAY : nat := 300.
Definition DEFAULT_SAVE_DELAY : nat := 1.

(** ** Exceptions *)

Inductive exn : Set := KeyError | ValueError | RuntimeError.

Inductive result (A : Type) : Type :=
  | Ok (a : A)
  | Raise (e : exn).
Arguments Ok {A} a.
Arguments Raise {A} e.

Notation "'try' x ← e ; k" :=
  (match e with Ok x => k | Raise err => Raise err end)
  (at level 10, x pattern, e at level 100, k at level 200,
   format "'[v' 'try'  x  ←  e ; '/' k ']'").

Inductive TokenType : Set :=
  | TOKEN_TYPE_NORMAL
  | TOKEN_TYPE_SYSTEM
  | TOKEN_TYPE_LONG_LIVED_ACCESS_TOKEN.

Section auth_store.
Context `{Imports}.

(** ** The persisted document

    A field read with [d[k]] is a field of the record; a field read with
    [d.get(k)] or tested with [k in d] is optional ([None]: the key is
    absent, or, for [get], holds null). *)

Record GroupDict := {
  gd_id : string;
  gd_name : string;
  gd_policy : option PolicyType;
}.

Record UserDict := {
  ud_id : string;
  ud_name : option string;
  ud_is_owner : bool;
  ud_is_active : bool;
  ud_system_generated : bool;
  ud_local_only : option bool;
  ud_group_ids : option (list string);
}.

Record CredDict := {
  cd_id : string;
  cd_user_id : string;
  cd_auth_provider_type : string;
  cd_auth_provider_id : string;
  cd_data : Any;
}.

Record TokenDict := {
  td_id : string;
  td_user_id : string;
  td_client_id : option string;
  td_client_name : option string;
  td_client_icon : option string;
  td_token_type : option TokenType;
  td_created_at : option Any;
  td_access_token_expiration : float;
  td_token : string;
  td_jwt_key : option string;
  td_last_used_at : option Any;
  td_last_used_ip : option string;
  td_expire_at : option float;
  td_credential_id : option string;
  td_version : option string;
}.

Record Document := {
  doc_users : list UserDict;
  doc_groups : option (list GroupDict);
  doc_credentials : list CredDict;
  doc_refresh_tokens : list TokenDict;
}.

(** ** The entities held in memory *)

Record Group := {
  group_id : string;
  group_name : string;
  group_policy : option PolicyType;
  group_system_generated : bool;
}.

Record Credentials := {
  cred_id : string;
  cred_auth_provider_type : string;
  cred_auth_provider_id : string;
  cred_data : Any;
  cred_is_new : bool;
}.

(** [rt_user] is the id of the owning user (the [user] attribute). *)
Record RefreshToken := {
  rt_id : string;
  rt_user : string;
  rt_client_id : option string;
  rt_client_name : option string;
  rt_client_icon : option string;
  rt_token_type : TokenType;
  rt_created_at : datetime;
  rt_access_token_expiration : timedelta;
  rt_token : string;
  rt_jwt_key : string;
  rt_last_used_at : option datetime;
  rt_last_used_ip : option string;
  rt_expire_at : option float;
  rt_credential : option Credentials;
  rt_version : option string;
}.

Record User := {
  user_id : string;
  user_name : option string;
  user_groups : list Group;
  user_is_owner : bool;
  user_is_active : bool;
  user_system_generated : bool;
  user_local_only : bool;
  user_credentials : list Credentials;
  user_refresh_tokens : gmap string RefreshToken;
}.

Definition set_user_groups (gs : list Group) (u : User) : User :=
  {| user_id := user_id u; user_name := user_name u; user_groups := gs;
     user_is_owner := user_is_owner u; user_is_active := user_is_active u;
     user_system_generated := user_system_generated u;
     user_local_only := user_local_only u;
     user_credentials := user_credentials u;
     user_refresh_tokens := user_refresh_tokens u |}.

Definition set_user_name (n : option string) (u : User) : User :=
  {| user_id := user_id u; user_name := n; user_groups := user_groups u;
     user_is_owner := user_is_owner u; user_is_active := user_is_active u;
     user_system_generated := user_system_generated u;
     user_local_only := user_local_only u;
     user_credentials := user_credentials u;
     user_refresh_tokens := user_refresh_tokens u |}.

Definition set_user_is_active (b : bool) (u : User) : User :=
  {| user_id := user_id u; user_name := user_name u;
     user_groups := user_groups u;
     user_is_owner := user_is_owner u; user_is_active := b;
     user_system_generated := user_system_generated u;
     user_local_only := user_local_only u;
     user_credentials := user_credentials u;
     user_refresh_tokens := user_refresh_tokens u |}.

Definition set_user_local_only (b : bool) (u : User) : User :=
  {| user_id := user_id u; user_name := user_name u;
     user_groups := user_groups u;
     user_is_owner := user_is_owner u; user_is_active := user_is_active u;
     user_system_generated := user_system_generated u;
     user_local_only := b;
     user_credentials := user_credentials u;
     user_refresh_tokens := user_refresh_tokens u |}.

Definition set_user_credentials (cs : list Credentials) (u : User) : User :=
  {| user_id := user_id u; user_name := user_name u;
     user_groups := user_groups u;
     user_is_owner := user_is_owner u; user_is_active := user_is_active u;
     user_system_generated := user_system_generated u;
     user_local_only := user_local_only u;
     user_credentials := cs;
     user_refresh_tokens := user_refresh_tokens u |}.

Definition set_user_refresh_tokens
    (ts : gmap string RefreshToken) (u : User) : User :=
  {| user_id := user_id u; user_name := user_name u;
     user_groups := user_groups u;
     user_is_owner := user_is_owner u; user_is_active := user_is_active u;
     user_system_generated := user_system_generated u;
     user_local_only := user_local_only u;
     user_credentials := user_credentials u;
     user_refresh_tokens := ts |}.

(** ** The store

    [save_requests] records the delays handed to [Store.async_delay_save]
    and [error_log] the records handed to the logger's [error], most
    recent last: the two collaborators the store has effects on. *)

Inductive LogRecord : Type :=
  | InvalidCreatedAtType (rt_dict : TokenDict)
  | InvalidCreatedAt (rt_dict : TokenDict).

Record AuthStore := {
  _loaded : bool;
  _users : gmap string User;
  _groups : gmap string Group;
  _token_id_to_user_id : gmap string string;
  save_requests : list nat;
  error_log : list LogRecord;
}.

(** [AuthStore.__init__]; the maps are read only once the store is loaded. *)
Definition __init__ : AuthStore :=
  {| _loaded := false; _users := ∅; _groups := ∅;
     _token_id_to_user_id := ∅; save_requests := []; error_log := [] |}.

Definition set_users (us : gmap string User) (s : AuthStore) : AuthStore :=
  {| _loaded := _loaded s; _users := us; _groups := _groups s;
     _token_id_to_user_id := _token_id_to_user_id s;
     save_requests := save_requests s; error_log := error_log s |}.

Definition set_groups (gs : gmap string Group) (s : AuthStore) : AuthStore :=
  {| _loaded := _loaded s; _users := _users s; _groups := gs;
     _token_id_to_user_id := _token_id_to_user_id s;
     save_requests := save_requests s; error_log := error_log s |}.

Definition set_token_id_to_user_id
    (ix : gmap string string) (s : AuthStore) : AuthStore :=
  {| _loaded := _loaded s; _users := _users s; _groups := _groups s;
     _token_id_to_user_id := ix;
     save_requests := save_requests s; error_log := error_log s |}.

Definition set_loaded (b : bool) (s : AuthStore) : AuthStore :=
  {| _loaded := b; _users := _users s; _groups := _groups s;
     _token_id_to_user_id := _token_id_to_user_id s;
     save_requests := save_requests s; error_log := error_log s |}.

Definition log_errors (l : list LogRecord) (s : AuthStore) : AuthStore :=
  {| _loaded := _loaded s; _users := _users s; _groups := _groups s;
     _token_id_to_user_id := _token_id_to_user_id s;
     save_requests := save_requests s; error_log := error_log s ++ l |}.

Definition _async_schedule_save (delay : nat) (s : AuthStore) : AuthStore :=
  {| _loaded := _loaded s; _users := _users s; _groups := _groups s;
     _token_id_to_user_id := _token_id_to_user_id s;
     save_requests := save_requests s ++ [delay]; error_log := error_log s |}.

(** ** System groups *)

Definition _system_admin_group : Group :=
  {| group_name := GROUP_NAME_ADMIN; group_id := GROUP_ID_ADMIN;
     group_policy := Some ADMIN_POLICY; group_system_generated := true |}.

Definition _system_user_group : Group :=
  {| group_name := GROUP_NAME_USER; group_id := GROUP_ID_USER;
     group_policy := Some USER_POLICY; group_system_generated := true |}.

Definition _system_read_only_group : Group :=
  {| group_name := GROUP_NAME_READ_ONLY; group_id := GROUP_ID_READ_ONLY;
     group_policy := Some READ_ONLY_POLICY; group_system_generated := true |}.


(** ** Loading *)

Record HasGroups := {
  has_admin_group : bool;
  has_user_group : bool;
  has_read_only_group : bool;
  group_without_policy : option string;
}.

Definition _get_group_policy (group_dict : GroupDict)
    : option PolicyType * string * bool :=
  if decide (gd_id group_dict = GROUP_ID_ADMIN)
  then (Some ADMIN_POLICY, GROUP_NAME_ADMIN, true)
  else if decide (gd_id group_dict = GROUP_ID_USER)
  then (Some USER_POLICY, GROUP_NAME_USER, true)
  else if decide (gd_id group_dict = GROUP_ID_READ_ONLY)
  then (Some READ_ONLY_POLICY, GROUP_NAME_READ_ONLY, true)
  else (gd_policy group_dict, gd_name group_dict, false).

(** One iteration of the loop of [_initialize_groups]. *)
Definition _initialize_groups_body
    (acc : gmap string Group * HasGroups) (group_dict : GroupDict)
    : gmap string Group * HasGroups :=
  let '(groups, hg) := acc in
  let '(policy, name, system_generated) := _get_group_policy group_dict in
  if bool_decide (policy = None) && negb system_generated then
    (groups,
     {| has_admin_group := has_admin_group hg;
        has_user_group := has_user_group hg;
        has_read_only_group := has_read_only_group hg;
        group_without_policy := Some (gd_id group_dict) |})
  else
    let groups :=
      <[gd_id group_dict :=
          {| group_id := gd_id group_dict; group_name := name;
             group_policy := policy;
             group_system_generated := system_generated |}]> groups in
    if decide (gd_id group_dict = GROUP_ID_ADMIN) then
      (groups,
       {| has_admin_group := true;
          has_user_group := has_user_group hg;
          has_read_only_group := has_read_only_group hg;
          group_without_policy := group_without_policy hg |})
    else if decide (gd_id group_dict = GROUP_ID_USER) then
      (groups,
       {| has_admin_group := has_admin_group hg;
          has_user_group := true;
          has_read_only_group := has_read_only_group hg;
          group_without_policy := group_without_policy hg |})
    else if decide (gd_id group_dict = GROUP_ID_READ_ONLY) then
      (groups,
       {| has_admin_group := has_admin_group hg;
          has_user_group := has_user_group hg;
          has_read_only_group := true;
          group_without_policy := group_without_policy hg |})
    else (groups, hg).

Definition _initialize_groups (data : Document) (groups : gmap string Group)
    : gmap string Group * HasGroups :=
  foldl _initialize_groups_body
    (groups,
     {| has_admin_group := false; has_user_group := false;
        has_read_only_group := false; group_without_policy := None |})
    (default [] (doc_groups data)).

(** [groups[group_id]] *)
Definition getitem {A} (d : gmap string A) (k : string) : result A :=
  match d !! k with Some a => Ok a | None => Raise KeyError end.

Fixpoint _get_user_groups_loop
    (group_ids : list string) (groups : gmap string Group)
    : result (list Group) :=
  match group_ids with
  | [] => Ok []
  | group_id :: rest =>
      let group_id :=
        if decide (group_id = GROUP_ID_USER) then GROUP_ID_ADMIN
        else group_id in
      try g ← getitem groups group_id;
      try gs ← _get_user_groups_loop rest groups;
      Ok (g :: gs)
  end.

Definition _get_user_groups
    (user_dict : UserDict) (groups : gmap string Group)
    (migrate_to_admin : bool) : result (list Group) :=
  try user_groups ←
    _get_user_groups_loop (default [] (ud_group_ids user_dict)) groups;
  if negb (ud_system_generated user_dict) && migrate_to_admin then
    try g ← getitem groups GROUP_ID_ADMIN;
    Ok (user_groups ++ [g])
  else Ok user_groups.

(** [_perm_lookup] is set by [async_load] before [_load_users] runs, so its
    [RuntimeError] branch is not taken. *)
Fixpoint _load_users
    (users_data : list UserDict) (groups : gmap string Group)
    (users : gmap string User) (migrate_to_admin : bool)
    : result (gmap string User) :=
  match users_data with
  | [] => Ok users
  | user_dict :: rest =>
      try user_groups ← _get_user_groups user_dict groups migrate_to_admin;
      _load_users rest groups
        (<[ud_id user_dict :=
            {| user_name := ud_name user_dict;
               user_groups := user_groups;
               user_id := ud_id user_dict;
               user_is_owner := ud_is_owner user_dict;
               user_is_active := ud_is_active user_dict;
               user_system_generated := ud_system_generated user_dict;
               user_local_only := default false (ud_local_only user_dict);
               user_credentials := [];
               user_refresh_tokens := ∅ |}]> users)
        migrate_to_admin
  end.

Definition credential_of_dict (cred_dict : CredDict) : Credentials :=
  {| cred_id := cd_id cred_dict;
     cred_is_new := false;
     cred_auth_provider_type := cd_auth_provider_type cred_dict;
     cred_auth_provider_id := cd_auth_provider_id cred_dict;
     cred_data := cd_data cred_dict |}.

Fixpoint _load_credentials
    (credentials_data : list CredDict) (users : gmap string User)
    (credentials : gmap string Credentials)
    : result (gmap string User * gmap string Credentials) :=
  match credentials_data with
  | [] => Ok (users, credentials)
  | cred_dict :: rest =>
      let credential := credential_of_dict cred_dict in
      let credentials := <[cd_id cred_dict := credential]> credentials in
      try user ← getitem users (cd_user_id cred_dict);
      _load_credentials rest
        (<[cd_user_id cred_dict :=
            set_user_credentials (user_credentials user ++ [credential]) user]>
           users)
        credentials
  end.

(** The outcome of one record of [_load_refresh_tokens]: skipped without a
    word, skipped with a logged error, or a token to store. *)
Inductive TokenOutcome : Type :=
  | Skipped
  | Logged (r : LogRecord)
  | Loaded (token : RefreshToken).

Definition _load_refresh_token
    (rt_dict : TokenDict) (users : gmap string User)
    (credentials : gmap string Credentials) : result TokenOutcome :=
  match td_jwt_key rt_dict with
  | None => Ok Skipped
  | Some jwt_key =>
      match td_created_at rt_dict with
      | Some (AStr created_at_str) =>
          match parse_datetime created_at_str with
          | None => Ok (Logged (InvalidCreatedAt rt_dict))
          | Some created_at =>
              let token_type :=
                match td_token_type rt_dict with
                | Some ty => ty
                | None =>
                    match td_client_id rt_dict with
                    | None => TOKEN_TYPE_SYSTEM
                    | Some _ => TOKEN_TYPE_NORMAL
                    end
                end in
              let last_used_at :=
                match td_last_used_at rt_dict with
                | Some (AStr last_used_at_raw) =>
                    parse_datetime last_used_at_raw
                | _ => None
                end in
              try user ← getitem users (td_user_id rt_dict);
              Ok (Loaded
                {| rt_id := td_id rt_dict;
                   rt_user := user_id user;
                   rt_client_id := td_client_id rt_dict;
                   rt_client_name := td_client_name rt_dict;
                   rt_client_icon := td_client_icon rt_dict;
                   rt_token_type := token_type;
                   rt_created_at := created_at;
                   rt_access_token_expiration :=
                     timedelta_seconds (td_access_token_expiration rt_dict);
                   rt_token := td_token rt_dict;
                   rt_jwt_key := jwt_key;
                   rt_last_used_at := last_used_at;
                   rt_last_used_ip := td_last_used_ip rt_dict;
                   rt_expire_at := td_expire_at rt_dict;
                   rt_credential :=
                     match td_credential_id rt_dict with
                     | Some credential_id => credentials !! credential_id
                     | None => None
                     end;
                   rt_version := td_version rt_dict |})
          end
      | _ => Ok (Logged (InvalidCreatedAtType rt_dict))
      end
  end.

(** Returns the users, or the exception, and what was logged on the way. *)
Fixpoint _load_refresh_tokens
    (tokens_data : list TokenDict) (users : gmap string User)
    (credentials : gmap string Credentials)
    : result (gmap string User) * list LogRecord :=
  match tokens_data with
  | [] => (Ok users, [])
  | rt_dict :: rest =>
      match _load_refresh_token rt_dict users credentials with
      | Raise e => (Raise e, [])
      | Ok Skipped => _load_refresh_tokens rest users credentials
      | Ok (Logged r) =>
          let '(res, log) := _load_refresh_tokens rest users credentials in
          (res, r :: log)
      | Ok (Loaded token) =>
          match getitem users (td_user_id rt_dict) with
          | Raise e => (Raise e, [])
          | Ok user =>
              _load_refresh_tokens rest
                (<[td_user_id rt_dict :=
                    set_user_refresh_tokens
                      (<[rt_id token := token]> (user_refresh_tokens user))
                      user]> users)
                credentials
          end
      end
  end.

(** The dict comprehension of [_build_token_id_to_user_id]. *)
Definition _build_token_id_to_user_id_of (users : gmap string User)
    : gmap string string :=
  foldl
    (λ index '(user_id, user),
       foldl (λ index token_id, <[token_id := user_id]> index) index
         (map_to_list (user_refresh_tokens user)).*1)
    ∅ (map_to_list users).

Definition _build_token_id_to_user_id (self : AuthStore) : AuthStore :=
  set_token_id_to_user_id (_build_token_id_to_user_id_of (_users self)) self.

Definition _set_defaults (self : AuthStore) : AuthStore :=
  let self := set_users ∅ self in
  let groups : gmap string Group := ∅ in
  let groups := <[group_id _system_admin_group := _system_admin_group]> groups in
  let groups := <[group_id _system_user_group := _system_user_group]> groups in
  let groups :=
    <[group_id _system_read_only_group := _system_read_only_group]> groups in
  let self := set_groups groups self in
  _build_token_id_to_user_id self.

(** The groups [async_load] hands to [_load_users], and the migration flag. *)
Definition load_groups (data : Document) : gmap string Group * bool :=
  let '(groups, has_groups) := _initialize_groups data ∅ in
  let migrate_users_to_admin_group :=
    bool_decide (groups = ∅)
    && bool_decide (group_without_policy has_groups = None) in
  let groups :=
    if has_admin_group has_groups then groups
    else <[GROUP_ID_ADMIN := _system_admin_group]> groups in
  let groups :=
    if has_read_only_group has_groups then groups
    else <[GROUP_ID_READ_ONLY := _system_read_only_group]> groups in
  let groups :=
    if has_user_group has_groups then groups
    else <[GROUP_ID_USER := _system_user_group]> groups in
  (groups, migrate_users_to_admin_group).

(** [data] is [None] when the stored value is absent or is not a dict. *)
Definition async_load (self : AuthStore) (data : option Document)
    : result unit * AuthStore :=
  if _loaded self then (Raise RuntimeError, self) else
  let self := set_loaded true self in
  match data with
  | None => (Ok (), _set_defaults self)
  | Some data =>
      let '(groups, migrate_users_to_admin_group) := load_groups data in
      match _load_users (doc_users data) groups ∅
              migrate_users_to_admin_group with
      | Raise e => (Raise e, self)
      | Ok users =>
          match _load_credentials (doc_credentials data) users ∅ with
          | Raise e => (Raise e, self)
          | Ok (users, credentials) =>
              match _load_refresh_tokens (doc_refresh_tokens data)
                      users credentials with
              | (Raise e, log) => (Raise e, log_errors log self)
              | (Ok users, log) =>
                  let self := log_errors log self in
                  let self := set_groups groups self in
                  let self := set_users users self in
                  let self := _build_token_id_to_user_id self in
                  (Ok (), _async_schedule_save INITIAL_LOAD_SAVE_DELAY self)
              end
          end
      end
  end.


(** ** Operations on users *)

(** The loop of [async_create_user] and [async_update_user] that resolves
    group ids in [_groups]. *)
Fixpoint resolve_group_ids
    (group_ids : list string) (groups : gmap string Group)
    : result (list Group) :=
  match group_ids with
  | [] => Ok []
  | group_id :: rest =>
      match groups !! group_id with
      | None => Raise ValueError
      | Some group =>
          try gs ← resolve_group_ids rest groups;
          Ok (group :: gs)
      end
  end.

(** [user] is the id of a user; a user that [_users] does not hold is an
    object outside the store, and changing it changes nothing here. *)
Definition async_link_user
    (self : AuthStore) (user : string) (credentials : Credentials)
    : result unit * AuthStore :=
  let linked :=
    {| cred_id := cred_id credentials;
       cred_auth_provider_type := cred_auth_provider_type credentials;
       cred_auth_provider_id := cred_auth_provider_id credentials;
       cred_data := cred_data credentials;
       cred_is_new := false |} in
  let self :=
    set_users
      (alter (λ u, set_user_credentials (user_credentials u ++ [linked]) u)
         user (_users self))
      self in
  (Ok (), _async_schedule_save DEFAULT_SAVE_DELAY self).

(** [new_id] is the id [models.User] draws for the new user. *)
Definition async_create_user
    (self : AuthStore) (new_id : string) (name : option string)
    (is_owner is_active system_generated : option bool)
    (credentials : option Credentials) (group_ids : option (list string))
    (local_only : option bool) : result User * AuthStore :=
  match resolve_group_ids (default [] group_ids) (_groups self) with
  | Raise e => (Raise e, self)
  | Ok groups =>
      let new_user :=
        {| user_id := new_id;
           user_name := name;
           user_groups := groups;
           user_is_owner := default User_default_is_owner is_owner;
           user_is_active := default User_default_is_active is_active;
           user_system_generated :=
             default User_default_system_generated system_generated;
           user_local_only := default User_default_local_only local_only;
           user_credentials := [];
           user_refresh_tokens := ∅ |} in
      let self := set_users (<[user_id new_user := new_user]> (_users self)) self in
      match credentials with
      | None => (Ok new_user, _async_schedule_save DEFAULT_SAVE_DELAY self)
      | Some credentials =>
          let '(_, self) := async_link_user self (user_id new_user) credentials in
          (Ok (default new_user (_users self !! user_id new_user)), self)
      end
  end.

(** [del self._token_id_to_user_id[refresh_token_id]] for each id in turn. *)
Fixpoint del_token_ids (ids : list string) (index : gmap string string)
    : result unit * gmap string string :=
  match ids with
  | [] => (Ok (), index)
  | refresh_token_id :: rest =>
      match index !! refresh_token_id with
      | None => (Raise KeyError, index)
      | Some _ => del_token_ids rest (delete refresh_token_id index)
      end
  end.

Definition async_remove_user (self : AuthStore) (user : string)
    : result unit * AuthStore :=
  match _users self !! user with
  | None => (Raise KeyError, self)
  | Some popped =>
      let self := set_users (delete user (_users self)) self in
      match del_token_ids (map_to_list (user_refresh_tokens popped)).*1
              (_token_id_to_user_id self) with
      | (Raise e, index) => (Raise e, set_token_id_to_user_id index self)
      | (Ok _, index) =>
          let self := set_token_id_to_user_id index self in
          (Ok (), _async_schedule_save DEFAULT_SAVE_DELAY self)
      end
  end.

Definition async_update_user
    (self : AuthStore) (user : string) (name : option string)
    (is_active : option bool) (group_ids : option (list string))
    (local_only : option bool) : result unit * AuthStore :=
  let updated :=
    match group_ids with
    | None => Ok self
    | Some group_ids =>
        try groups ← resolve_group_ids group_ids (_groups self);
        Ok (set_users (alter (set_user_groups groups) user (_users self)) self)
    end in
  match updated with
  | Raise e => (Raise e, self)
  | Ok self =>
      let setattr {A} (value : option A) (set : A → User → User)
          (self : AuthStore) :=
        match value with
        | None => self
        | Some v => set_users (alter (set v) user (_users self)) self
        end in
      let self := setattr name (λ v, set_user_name (Some v)) self in
      let self := setattr is_active set_user_is_active self in
      let self := setattr local_only set_user_local_only self in
      (Ok (), _async_schedule_save DEFAULT_SAVE_DELAY self)
  end.

(** ** Operations on refresh tokens *)

(** What [models.RefreshToken] draws for a new token. *)
Record Generated := {
  gen_id : string;
  gen_token : string;
  gen_jwt_key : string;
  gen_created_at : datetime;
  gen_version : option string;
}.

Definition truthy (s : option string) : option string :=
  match s with
  | Some s => if decide (s = "") then None else Some s
  | None => None
  end.

Definition async_create_refresh_token
    (self : AuthStore) (gen : Generated) (user : string)
    (client_id client_name client_icon : option string)
    (token_type : TokenType) (access_token_expiration : timedelta)
    (expire_at : option float) (credential : option Credentials)
    : result RefreshToken * AuthStore :=
  let user_dot_id := from_option user_id user (_users self !! user) in
  let refresh_token :=
    {| rt_id := gen_id gen;
       rt_user := user_dot_id;
       rt_client_id := client_id;
       rt_client_name := truthy client_name;
       rt_client_icon := truthy client_icon;
       rt_token_type := token_type;
       rt_created_at := gen_created_at gen;
       rt_access_token_expiration := access_token_expiration;
       rt_token := gen_token gen;
       rt_jwt_key := gen_jwt_key gen;
       rt_last_used_at := None;
       rt_last_used_ip := None;
       rt_expire_at := expire_at;
       rt_credential := credential;
       rt_version := gen_version gen |} in
  let token_id := rt_id refresh_token in
  let self :=
    set_users
      (alter
         (λ u, set_user_refresh_tokens
                 (<[token_id := refresh_token]> (user_refresh_tokens u)) u)
         user (_users self))
      self in
  let self :=
    set_token_id_to_user_id
      (<[token_id := user_dot_id]> (_token_id_to_user_id self)) self in
  (Ok refresh_token, _async_schedule_save DEFAULT_SAVE_DELAY self).

(** [refresh_token] is the id of the token passed.  The walrus condition
    is the truth value of the user id the index returns. *)
Definition async_remove_refresh_token
    (self : AuthStore) (refresh_token : string) : result unit * AuthStore :=
  let refresh_token_id := refresh_token in
  match truthy (_token_id_to_user_id self !! refresh_token_id) with
  | None => (Ok (), self)
  | Some user_id =>
      match _users self !! user_id with
      | None => (Raise KeyError, self)
      | Some user =>
          match user_refresh_tokens user !! refresh_token_id with
          | None => (Raise KeyError, self)
          | Some _ =>
              let self :=
                set_users
                  (<[user_id :=
                      set_user_refresh_tokens
                        (delete refresh_token_id (user_refresh_tokens user))
                        user]> (_users self))
                  self in
              let self :=
                set_token_id_to_user_id
                  (delete refresh_token_id (_token_id_to_user_id self)) self in
              (Ok (), _async_schedule_save DEFAULT_SAVE_DELAY self)
          end
      end
  end.

Definition async_get_refresh_token (self : AuthStore) (token_id : string)
    : result (option RefreshToken) :=
  match truthy (_token_id_to_user_id self !! token_id) with
  | None => Ok None
  | Some user_id =>
      try user ← getitem (_users self) user_id;
      Ok (user_refresh_tokens user !! token_id)
  end.




Definition async_get_refresh_tokens (self : AuthStore) : list RefreshToken :=
  mjoin ((λ user, (map_to_list (user_refresh_tokens user)).*2)
           <$> (map_to_list (_users self)).*2).

(** ** Serialisation *)

Definition user_to_dict (user : User) : UserDict :=
  {| ud_id := user_id user;
     ud_group_ids := Some (group_id <$> user_groups user);
     ud_is_owner := user_is_owner user;
     ud_is_active := user_is_active user;
     ud_name := user_name user;
     ud_system_generated := user_system_generated user;
     ud_local_only := Some (user_local_only user) |}.

Definition group_to_dict (group : Group) : GroupDict :=
  {| gd_id := group_id group;
     gd_name := group_name group;
     gd_policy :=
       if group_system_generated group then None else group_policy group |}.

Definition credential_to_dict (user : User) (credential : Credentials)
    : CredDict :=
  {| cd_id := cred_id credential;
     cd_user_id := user_id user;
     cd_auth_provider_type := cred_auth_provider_type credential;
     cd_auth_provider_id := cred_auth_provider_id credential;
     cd_data := cred_data credential |}.

Definition refresh_token_to_dict (user : User) (refresh_token : RefreshToken)
    : TokenDict :=
  {| td_id := rt_id refresh_token;
     td_user_id := user_id user;
     td_client_id := rt_client_id refresh_token;
     td_client_name := rt_client_name refresh_token;
     td_client_icon := rt_client_icon refresh_token;
     td_token_type := Some (rt_token_type refresh_token);
     td_created_at := Some (AStr (isoformat (rt_created_at refresh_token)));
     td_access_token_expiration :=
       total_seconds (rt_access_token_expiration refresh_token);
     td_token := rt_token refresh_token;
     td_jwt_key := Some (rt_jwt_key refresh_token);
     td_last_used_at :=
       Some (match rt_last_used_at refresh_token with
             | Some t => AStr (isoformat t)
             | None => ANone
             end);
     td_last_used_ip := rt_last_used_ip refresh_token;
     td_expire_at := rt_expire_at refresh_token;
     td_credential_id := cred_id <$> rt_credential refresh_token;
     td_version := rt_version refresh_token |}.

Definition _data_to_save (self : AuthStore) : Document :=
  let users := (map_to_list (_users self)).*2 in
  {| doc_users := user_to_dict <$> users;
     doc_groups := Some (group_to_dict <$> (map_to_list (_groups self)).*2);
     doc_credentials :=
       mjoin ((λ user, credential_to_dict user <$> user_credentials user)
                <$> users);
     doc_refresh_tokens :=
       mjoin ((λ user,
                 refresh_token_to_dict user
                   <$> (map_to_list (user_refresh_tokens user)).*2)
                <$> users) |}.

(** ** Predicates the properties are stated with *)

(** The id [_get_user_groups] looks up for a persisted group id. *)
Definition migrated_group_id (group_id : string) : string :=
  if decide (group_id = GROUP_ID_USER) then GROUP_ID_ADMIN else group_id.

(** A record is quarantined when it has no policy and its id is none of
    the reserved ones. *)
Definition quarantined (gd : GroupDict) : Prop :=
  gd_policy gd = None
  ∧ gd_id gd ≠ GROUP_ID_ADMIN ∧ gd_id gd ≠ GROUP_ID_USER
  ∧ gd_id gd ≠ GROUP_ID_READ_ONLY.

(** What the loop of [_initialize_groups] keeps true of the three flags. *)
Definition flags_sound (acc : gmap string Group * HasGroups) : Prop :=
  (has_admin_group acc.2 = true →
     acc.1 !! GROUP_ID_ADMIN = Some _system_admin_group)
  ∧ (has_user_group acc.2 = true →
     acc.1 !! GROUP_ID_USER = Some _system_user_group)
  ∧ (has_read_only_group acc.2 = true →
     acc.1 !! GROUP_ID_READ_ONLY = Some _system_read_only_group).

(** A token some user of the store holds. *)
Definition held (s : AuthStore) (t : RefreshToken) : Prop :=
  ∃ k u i, _users s !! k = Some u ∧ user_refresh_tokens u !! i = Some t.

(** The invariant of the token index: a user is stored under its id, the
    index sends every token id a user holds to that user, and every entry
    of the index names a user that holds the token. *)
Definition index_consistent (s : AuthStore) : Prop :=
  (∀ k u, _users s !! k = Some u → user_id u = k)
  ∧ (∀ k u t, _users s !! k = Some u →
       is_Some (user_refresh_tokens u !! t) →
       _token_id_to_user_id s !! t = Some k)
  ∧ (∀ t k, _token_id_to_user_id s !! t = Some k →
       ∃ u, _users s !! k = Some u ∧ is_Some (user_refresh_tokens u !! t)).

(** The union of the key sets of the users' refresh-token maps. *)
Definition all_token_ids (s : AuthStore) : gset string :=
  ⋃ ((λ u, dom (user_refresh_tokens u)) <$> (map_to_list (_users s)).*2).

(** The operations of a run of the store, with what each call is given. *)
Inductive Operation : Type :=
  | CreateUser (new_id : string) (name : option string)
      (is_owner is_active system_generated : option bool)
      (credentials : option Credentials) (group_ids : option (list string))
      (local_only : option bool)
  | CreateRefreshToken (gen : Generated) (user : string)
      (client_id client_name client_icon : option string)
      (token_type : TokenType) (access_token_expiration : timedelta)
      (expire_at : option float) (credential : option Credentials)
  | RemoveRefreshToken (refresh_token : string)
  | RemoveUser (user : string).

(** The store an operation leaves, whether it returns or raises. *)
Definition perform (s : AuthStore) (o : Operation) : AuthStore :=
  match o with
  | CreateUser new_id name is_owner is_active system_generated credentials
      group_ids local_only =>
      (async_create_user s new_id name is_owner is_active system_generated
         credentials group_ids local_only).2
  | CreateRefreshToken gen user client_id client_name client_icon token_type
      access_token_expiration expire_at credential =>
      (async_create_refresh_token s gen user client_id client_name
         client_icon token_type access_token_expiration expire_at
         credential).2
  | RemoveRefreshToken refresh_token =>
      (async_remove_refresh_token s refresh_token).2
  | RemoveUser user => (async_remove_user s user).2
  end.

(** Ids drawn for new users and tokens are not in use, and a token is
    created for a user of the store. *)
Definition admissible (s : AuthStore) (o : Operation) : Prop :=
  match o with
  | CreateUser new_id _ _ _ _ _ _ _ => _users s !! new_id = None
  | CreateRefreshToken gen user _ _ _ _ _ _ _ =>
      is_Some (_users s !! user)
      ∧ _token_id_to_user_id s !! gen_id gen = None
  | RemoveRefreshToken _ => True
  | RemoveUser _ => True
  end.

Fixpoint admissible_run (s : AuthStore) (ops : list Operation) : Prop :=
  match ops with
  | [] => True
  | o :: ops => admissible s o ∧ admissible_run (perform s o) ops
  end.

(** No refresh-token id of the document occurs under two users. *)
Definition token_ids_unshared (data : Document) : Prop :=
  ∀ r1 r2, r1 ∈ doc_refresh_tokens data → r2 ∈ doc_refresh_tokens data →
           td_id r1 = td_id r2 → td_user_id r1 = td_user_id r2.

(** Two users that differ at most in their credentials and tokens. *)
Definition same_identity (u u' : User) : Prop :=
  user_id u' = user_id u
  ∧ user_name u' = user_name u
  ∧ user_groups u' = user_groups u
  ∧ user_is_owner u' = user_is_owner u
  ∧ user_is_active u' = user_is_active u
  ∧ user_system_generated u' = user_system_generated u
  ∧ user_local_only u' = user_local_only u.




(** ** The store read back from what it saves *)

Definition is_system_group_id (k : string) : Prop :=
  k = GROUP_ID_ADMIN ∨ k = GROUP_ID_USER ∨ k = GROUP_ID_READ_ONLY.

(** A group with the name and policy of a system group normalized to the
    hardcoded values. *)
Definition normalized_group (g : Group) : Group :=
  if decide (group_id g = GROUP_ID_ADMIN) then _system_admin_group
  else if decide (group_id g = GROUP_ID_USER) then _system_user_group
  else if decide (group_id g = GROUP_ID_READ_ONLY)
  then _system_read_only_group
  else g.



(** What load and the operations keep true of a store besides the
    consistency of the index: groups are stored under their ids, exactly
    the groups under the reserved ids are system-generated and the others
    have a policy, the three system groups are there, users are members of
    groups of the store, tokens are stored under their ids and point to
    their owner, and linked credentials are not new. *)
Definition store_wf (s : AuthStore) : Prop :=
  index_consistent s
  ∧ (∀ k g, _groups s !! k = Some g →
       group_id g = k
       ∧ (group_system_generated g = true ↔ is_system_group_id k)
       ∧ (group_system_generated g = false → is_Some (group_policy g)))
  ∧ (is_Some (_groups s !! GROUP_ID_ADMIN)
     ∧ is_Some (_groups s !! GROUP_ID_USER)
     ∧ is_Some (_groups s !! GROUP_ID_READ_ONLY))
  ∧ (∀ k u g, _users s !! k = Some u → g ∈ user_groups u →
       _groups s !! group_id g = Some g)
  ∧ (∀ k u i t, _users s !! k = Some u →
       user_refresh_tokens u !! i = Some t → rt_id t = i ∧ rt_user t = k)
  ∧ (∀ k u c, _users s !! k = Some u → c ∈ user_credentials u →
       cred_is_new c = false).


Definition credentials_of (s : AuthStore) : list Credentials :=
  mjoin (user_credentials <$> (map_to_list (_users s)).*2).



(** Groups stored under their ids; the groups under the reserved ids, and
    only they, system-generated; the others with a policy. *)
Definition groups_wf (groups : gmap string Group) : Prop :=
  ∀ k g, groups !! k = Some g →
    group_id g = k
    ∧ (group_system_generated g = true ↔ is_system_group_id k)
    ∧ (group_system_generated g = false → is_Some (group_policy g)).

End auth_store.

(** ** What the store imports for the expiry of refresh tokens

    [REFRESH_TOKEN_EXPIRATION] of [.const], [datetime.timestamp], the sum
    of two floats and the truth value of a float (false for zero). *)

Class Clock `{Imports} := {
  REFRESH_TOKEN_EXPIRATION : float;
  timestamp : datetime → float;
  float_add : float → float → float;
  float_bool : float → bool;
}.

Section auth_store_reads.
Context `{Imports}.

(** ** Reads *)

Definition async_get_groups (self : AuthStore) : list Group :=
  (map_to_list (_groups self)).*2.

Definition async_get_group (self : AuthStore) (group_id : string)
    : option Group :=
  _groups self !! group_id.

Definition async_get_users (self : AuthStore) : list User :=
  (map_to_list (_users self)).*2.

Definition async_get_user (self : AuthStore) (user_id : string)
    : option User :=
  _users self !! user_id.

(** ** Activating and deactivating a user *)

Definition async_activate_user (self : AuthStore) (user : string)
    : result unit * AuthStore :=
  let self :=
    set_users (alter (set_user_is_active true) user (_users self)) self in
  (Ok (), _async_schedule_save DEFAULT_SAVE_DELAY self).

Definition async_deactivate_user (self : AuthStore) (user : string)
    : result unit * AuthStore :=
  let self :=
    set_users (alter (set_user_is_active false) user (_users self)) self in
  (Ok (), _async_schedule_save DEFAULT_SAVE_DELAY self).

(** ** Removing credentials

    The credentials passed are an object; [is_credentials k i] tells
    whether the [i]-th credential of the user stored under [k] is that
    object. *)

(** [enumerate(user.credentials)] up to the first credential that is the
    object: its index, counted from [i]. *)
Fixpoint find_credentials {A} (is_it : nat → bool) (i : nat) (l : list A)
    : option nat :=
  match l with
  | [] => None
  | _ :: l => if is_it i then Some i else find_credentials is_it (S i) l
  end.

(** The loop over [self._users.values()], which stops at the first user
    that has the object. *)
Fixpoint remove_credentials_loop
    (is_credentials : string → nat → bool) (items : list (string * User))
    (users : gmap string User) : gmap string User :=
  match items with
  | [] => users
  | (k, user) :: items =>
      match find_credentials (is_credentials k) 0 (user_credentials user) with
      | Some found =>
          <[k := set_user_credentials
                   (delete found (user_credentials user)) user]> users
      | None => remove_credentials_loop is_credentials items users
      end
  end.

Definition async_remove_credentials
    (self : AuthStore) (is_credentials : string → nat → bool)
    : result unit * AuthStore :=
  let self :=
    set_users
      (remove_credentials_loop is_credentials (map_to_list (_users self))
         (_users self))
      self in
  (Ok (), _async_schedule_save DEFAULT_SAVE_DELAY self).

(** The user an update leaves: the arguments that are not [None] replace
    the fields. *)
Definition updated_user (name : option string) (is_active : option bool)
    (groups : option (list Group)) (local_only : option bool) (u : User)
    : User :=
  {| user_id := user_id u;
     user_name := if name is Some n then Some n else user_name u;
     user_groups := default (user_groups u) groups;
     user_is_owner := user_is_owner u;
     user_is_active := default (user_is_active u) is_active;
     user_system_generated := user_system_generated u;
     user_local_only := default (user_local_only u) local_only;
     user_credentials := user_credentials u;
     user_refresh_tokens := user_refresh_tokens u |}.

(** The token the store holds for [user] under [token_id]. *)
Definition token_of (s : AuthStore) (user token_id : string)
    : option RefreshToken :=
  _users s !! user ≫= λ u, user_refresh_tokens u !! token_id.

End auth_store_reads.

Section auth_store_clock.
Context `{Clock}.

(** ** The expiry of refresh tokens

    A refresh token passed to these methods is the object the store holds
    for [user] under [token_id]. *)

Definition set_rt_expire_at (expire_at : option float) (t : RefreshToken)
    : RefreshToken :=
  {| rt_id := rt_id t; rt_user := rt_user t; rt_client_id := rt_client_id t;
     rt_client_name := rt_client_name t; rt_client_icon := rt_client_icon t;
     rt_token_type := rt_token_type t; rt_created_at := rt_created_at t;
     rt_access_token_expiration := rt_access_token_expiration t;
     rt_token := rt_token t; rt_jwt_key := rt_jwt_key t;
     rt_last_used_at := rt_last_used_at t;
     rt_last_used_ip := rt_last_used_ip t;
     rt_expire_at := expire_at;
     rt_credential := rt_credential t; rt_version := rt_version t |}.

Definition set_rt_last_used (last_used_at : option datetime)
    (last_used_ip : option string) (t : RefreshToken) : RefreshToken :=
  {| rt_id := rt_id t; rt_user := rt_user t; rt_client_id := rt_client_id t;
     rt_client_name := rt_client_name t; rt_client_icon := rt_client_icon t;
     rt_token_type := rt_token_type t; rt_created_at := rt_created_at t;
     rt_access_token_expiration := rt_access_token_expiration t;
     rt_token := rt_token t; rt_jwt_key := rt_jwt_key t;
     rt_last_used_at := last_used_at;
     rt_last_used_ip := last_used_ip;
     rt_expire_at := rt_expire_at t;
     rt_credential := rt_credential t; rt_version := rt_version t |}.

(** The store with the token of [user] under [token_id] changed by [f];
    a token the store does not hold is an object outside the store. *)
Definition alter_refresh_token (f : RefreshToken → RefreshToken)
    (user token_id : string) (self : AuthStore) : AuthStore :=
  set_users
    (alter
       (λ u, set_user_refresh_tokens
               (alter f token_id (user_refresh_tokens u)) u)
       user (_users self))
    self.

(** What [async_log_refresh_token_usage] does to the token; [utcnow] is
    what [dt_util.utcnow()] returns. *)
Definition log_usage (utcnow : datetime) (remote_ip : option string)
    (refresh_token : RefreshToken) : RefreshToken :=
  let refresh_token := set_rt_last_used (Some utcnow) remote_ip refresh_token in
  match rt_expire_at refresh_token with
  | Some expire_at =>
      if float_bool expire_at then
        set_rt_expire_at
          (Some (float_add (timestamp utcnow) REFRESH_TOKEN_EXPIRATION))
          refresh_token
      else refresh_token
  | None => refresh_token
  end.

Definition async_log_refresh_token_usage
    (self : AuthStore) (utcnow : datetime) (user token_id : string)
    (remote_ip : option string) : result unit * AuthStore :=
  let self := alter_refresh_token (log_usage utcnow remote_ip) user token_id self in
  (Ok (), _async_schedule_save DEFAULT_SAVE_DELAY self).

(** [None] when the store holds no token for [user] under [token_id]:
    whether a save is requested then depends on an object that is not
    part of the store. *)
Definition async_set_expiry
    (self : AuthStore) (utcnow : datetime) (user token_id : string)
    (enable_expiry : bool) : option (result unit * AuthStore) :=
  refresh_token ←
    (_users self !! user) ≫= (λ u, user_refresh_tokens u !! token_id);
  if enable_expiry then
    match rt_expire_at refresh_token with
    | None =>
        let expire_at :=
          float_add
            (timestamp (default utcnow (rt_last_used_at refresh_token)))
            REFRESH_TOKEN_EXPIRATION in
        let self :=
          alter_refresh_token (set_rt_expire_at (Some expire_at))
            user token_id self in
        Some (Ok (), _async_schedule_save DEFAULT_SAVE_DELAY self)
    | Some _ => Some (Ok (), self)
    end
  else
    let self := alter_refresh_token (set_rt_expire_at None) user token_id self in
    Some (Ok (), _async_schedule_save DEFAULT_SAVE_DELAY self).

End auth_store_clock.

(** ** A concrete instance of the imports, and sample data

    A timestamp is kept as a text and printed behind the letter T; what
    does not start with T does not parse.  Durations and numbers are
    integers. *)

Definition sample_parse_datetime (s : string) : option string :=
  match s with
  | String "T"%char rest => Some rest
  | _ => None
  end.

Definition sample_ids_distinct
    : NoDup ["system-admin"; "system-users"; "system-read-only"] :=
  ltac:(repeat (apply NoDup_cons_2;
                  [rewrite ?elem_of_cons, elem_of_nil; intros ?;
                   intuition discriminate|]);
        apply NoDup_nil_2).

Definition sample_imports : Imports :=
  {| GROUP_ID_ADMIN := "system-admin";
     GROUP_ID_USER := "system-users";
     GROUP_ID_READ_ONLY := "system-read-only";
     PolicyType := string;
     ADMIN_POLICY := "admin-policy";
     USER_POLICY := "user-policy";
     READ_ONLY_POLICY := "read-only-policy";
     datetime := string;
     timedelta := Z;
     float := Z;
     parse_datetime := sample_parse_datetime;
     isoformat := λ d, String "T"%char d;
     timedelta_seconds := λ x, x;
     total_seconds := λ x, x;
     User_default_is_owner := false;
     User_default_is_active := false;
     User_default_system_generated := false;
     User_default_local_only := false;
     GROUP_IDS_distinct := sample_ids_distinct |}.

(** The expiry of ninety days in seconds; the stamp of a time is the length
    of its text. *)
Definition sample_clock : @Clock sample_imports :=
  @Build_Clock sample_imports 7776000%Z
    (λ d : string, Z.of_nat (String.length d)) Z.add
    (λ x : Z, negb (x =? 0)%Z).

Module Sample.
#[local] Existing Instance sample_imports.

Definition user_dict (id : string) (system_generated : bool)
    (group_ids : option (list string)) : UserDict :=
  {| ud_id := id; ud_name := Some "Paulus"; ud_is_owner := false;
     ud_is_active := true; ud_system_generated := system_generated;
     ud_local_only := None; ud_group_ids := group_ids |}.

Definition cred_dict (id user_id : string) : CredDict :=
  {| cd_id := id; cd_user_id := user_id;
     cd_auth_provider_type := "homeassistant"; cd_auth_provider_id := "";
     cd_data := ADict [("username", AStr "paulus")] |}.

Definition token_dict (id user_id token : string)
    (jwt_key : option string) (created_at : option Any)
    (credential_id : option string) : TokenDict :=
  {| td_id := id; td_user_id := user_id; td_client_id := None;
     td_client_name := None; td_client_icon := None; td_token_type := None;
     td_created_at := created_at; td_access_token_expiration := 1800%Z;
     td_token := token; td_jwt_key := jwt_key; td_last_used_at := None;
     td_last_used_ip := None; td_expire_at := None;
     td_credential_id := credential_id; td_version := None |}.

Definition group_dict (id name : string) (policy : option string)
    : GroupDict :=
  {| gd_id := id; gd_name := name; gd_policy := policy |}.

Definition created_at : option Any := Some (AStr "T2024-01-01T00:00:00").

(** An old document: no group records; a user, a system-generated user,
    a credential and two refresh tokens. *)
Definition old_document : Document :=
  {| doc_users := [user_dict "a" false None; user_dict "b" true None];
     doc_groups := None;
     doc_credentials := [cred_dict "c" "a"];
     doc_refresh_tokens :=
       [token_dict "t" "a" "secret-t" (Some "key-t") created_at (Some "c");
        token_dict "v" "b" "secret-v" (Some "key-v") created_at None] |}.

(** A document written by the store: group records of the system groups
    only, and a user without memberships. *)
Definition system_groups_document : Document :=
  {| doc_users := [user_dict "a" false (Some [])];
     doc_groups :=
       Some [group_dict "system-admin" "Admins" (Some "none");
             group_dict "system-users" "Users" None;
             group_dict "system-read-only" "Read Only" None];
     doc_credentials := [];
     doc_refresh_tokens := [] |}.

(** A document with a group without policy that a user is a member of. *)
Definition quarantine_document : Document :=
  {| doc_users := [user_dict "a" false (Some ["family"])];
     doc_groups := Some [group_dict "family" "Family" None];
     doc_credentials := [];
     doc_refresh_tokens := [] |}.

(** A document with the same refresh-token id under two users. *)
Definition shared_token_document : Document :=
  {| doc_users := [user_dict "a" false None; user_dict "b" false None];
     doc_groups := None;
     doc_credentials := [];
     doc_refresh_tokens :=
       [token_dict "t" "a" "secret-a" (Some "key-a") created_at None;
        token_dict "t" "b" "secret-b" (Some "key-b") created_at None] |}.

(** A document with a user whose id is the empty string. *)
Definition empty_id_document : Document :=
  {| doc_users := [user_dict "" false None];
     doc_groups := None;
     doc_credentials := [];
     doc_refresh_tokens :=
       [token_dict "t" "" "secret-t" (Some "key-t") created_at None] |}.

(** A document with a record without [jwt_key] and a record whose
    [created_at] does not parse, between two records that load. *)
Definition no_key : TokenDict :=
  token_dict "x" "a" "secret-x" None created_at None.





(** The store after a load, and the store the default path builds with a
    user created in the user group. *)
Definition loaded (data : option Document) : AuthStore :=
  (async_load __init__ data).2.

(** A run of operations on the store loaded from the old document. *)
Definition sample_run : list Operation :=
  [CreateUser "n" (Some "Anne") None (Some true) None None
     (Some ["system-read-only"]) None;
   CreateRefreshToken
     {| gen_id := "w"; gen_token := "secret-w"; gen_jwt_key := "key-w";
        gen_created_at := "2024-02-02T00:00:00"; gen_version := None |}
     "n" (Some "https://example.com") None None TOKEN_TYPE_NORMAL 1800%Z
     None None;
   RemoveRefreshToken "t";
   RemoveUser "b"].

Definition store_with_plain_user : AuthStore :=
  (async_create_user (loaded None) "u" (Some "Paulus") None (Some true) None
     None (Some ["system-users"]) None).2.

(** A document with a credential of a user it has no record of. *)
Definition orphan_credential_document : Document :=
  {| doc_users := [user_dict "a" false None];
     doc_groups := None;
     doc_credentials := [cred_dict "c" "z"];
     doc_refresh_tokens := [] |}.



(** What the constructor of a refresh token generates. *)
Definition generated : Generated :=
  {| gen_id := "w"; gen_token := "secret-w"; gen_jwt_key := "key-w";
     gen_created_at := "2024-02-02T00:00:00"; gen_version := None |}.

End Sample.

(** * Properties *)

Section properties.
Context `{Imports}.

Lemma GROUP_ID_ADMIN_USER : GROUP_ID_ADMIN ≠ GROUP_ID_USER.
Proof.
  pose proof GROUP_IDS_distinct as Hd.
  apply NoDup_cons in Hd as [Hd _]. set_solver.
Qed.

Lemma GROUP_ID_ADMIN_READ_ONLY : GROUP_ID_ADMIN ≠ GROUP_ID_READ_ONLY.
Proof.
  pose proof GROUP_IDS_distinct as Hd.
  apply NoDup_cons in Hd as [Hd _]. set_solver.
Qed.

Lemma GROUP_ID_USER_READ_ONLY : GROUP_ID_USER ≠ GROUP_ID_READ_ONLY.
Proof.
  pose proof GROUP_IDS_distinct as Hd.
  apply NoDup_cons in Hd as [_ Hd]. apply NoDup_cons in Hd as [Hd _].
  set_solver.
Qed.

(** ** Groups after [_initialize_groups] and the backfill *)

Lemma _initialize_groups_body_flags acc gd :
  flags_sound acc → flags_sound (_initialize_groups_body acc gd).
Proof.
  pose proof GROUP_ID_ADMIN_USER. pose proof GROUP_ID_ADMIN_READ_ONLY.
  pose proof GROUP_ID_USER_READ_ONLY.
  destruct acc as [groups hg]. intros (Ha & Hu & Hr); simpl in *.
  unfold _initialize_groups_body, _get_group_policy.
  repeat case_decide; simpl; unfold flags_sound; simpl;
    try (case_bool_decide; simpl); try done;
    try (destruct (group_system_generated _));
    repeat split; intros; simplify_map_eq; try congruence; auto;
    try (by rewrite ?lookup_insert_ne by congruence; auto).
  all: match goal with Hid : gd_id _ = _ |- _ => rewrite Hid end.
  all: by rewrite lookup_insert_eq.
Qed.

Lemma foldl_initialize_groups_flags l acc :
  flags_sound acc → flags_sound (foldl _initialize_groups_body acc l).
Proof.
  revert acc. induction l as [|gd l IH]; intros acc Hacc; simpl; [done|].
  apply IH, _initialize_groups_body_flags, Hacc.
Qed.

Lemma load_groups_system data :
  (load_groups data).1 !! GROUP_ID_ADMIN = Some _system_admin_group
  ∧ (load_groups data).1 !! GROUP_ID_USER = Some _system_user_group
  ∧ (load_groups data).1 !! GROUP_ID_READ_ONLY
    = Some _system_read_only_group.
Proof.
  pose proof GROUP_ID_ADMIN_USER. pose proof GROUP_ID_ADMIN_READ_ONLY.
  pose proof GROUP_ID_USER_READ_ONLY.
  unfold load_groups, _initialize_groups.
  match goal with |- context [foldl _ ?a ?l] =>
    pose proof (foldl_initialize_groups_flags l a) as Hf;
    destruct (foldl _initialize_groups_body a l) as [groups hg] end.
  destruct Hf as (Ha & Hu & Hr); [by repeat split|]. simpl in *.
  destruct (has_admin_group hg), (has_read_only_group hg),
    (has_user_group hg); simpl;
    repeat split; simplify_map_eq; auto.
Qed.

Lemma async_load_Ok_groups s data s' :
  async_load s (Some data) = (Ok (), s') →
  _groups s' = (load_groups data).1.
Proof.
  unfold async_load. destruct (_loaded s); [done|].
  destruct (load_groups data) as [groups migrate]. simpl.
  destruct (_load_users _ _ _ _) as [users|]; [|done].
  destruct (_load_credentials _ _ _) as [[users' creds]|]; [|done].
  destruct (_load_refresh_tokens _ _ _) as [[users''|] log]; [|done].
  by intros [= <-].
Qed.

(** C4: a persisted group record whose id is the admin, the user or the
    read-only constant loads as the hardcoded group of that id — its name,
    its policy and [system_generated = true] — whatever name and policy the
    record stores; the groups of the loaded store are these groups. *)
Theorem system_group_record_loads_hardcoded (data : Document) (gd : GroupDict) :
  gd ∈ default [] (doc_groups data) →
  (gd_id gd = GROUP_ID_ADMIN →
     _get_group_policy gd = (Some ADMIN_POLICY, GROUP_NAME_ADMIN, true)
     ∧ (load_groups data).1 !! gd_id gd = Some _system_admin_group)
  ∧ (gd_id gd = GROUP_ID_USER →
     _get_group_policy gd = (Some USER_POLICY, GROUP_NAME_USER, true)
     ∧ (load_groups data).1 !! gd_id gd = Some _system_user_group)
  ∧ (gd_id gd = GROUP_ID_READ_ONLY →
     _get_group_policy gd
       = (Some READ_ONLY_POLICY, GROUP_NAME_READ_ONLY, true)
     ∧ (load_groups data).1 !! gd_id gd = Some _system_read_only_group)
  ∧ (∀ s s', async_load s (Some data) = (Ok (), s') →
       _groups s' = (load_groups data).1).
Proof.
  pose proof GROUP_ID_ADMIN_USER. pose proof GROUP_ID_ADMIN_READ_ONLY.
  pose proof GROUP_ID_USER_READ_ONLY.
  intros _. destruct (load_groups_system data) as (Ha & Hu & Hr).
  split; [|split; [|split]].
  - intros Hid. rewrite Hid. split; [|done].
    unfold _get_group_policy. by rewrite Hid, decide_True.
  - intros Hid. rewrite Hid. split; [|done].
    unfold _get_group_policy. rewrite Hid.
    rewrite decide_False by done. by rewrite decide_True.
  - intros Hid. rewrite Hid. split; [|done].
    unfold _get_group_policy. rewrite Hid.
    rewrite !decide_False by done. by rewrite decide_True.
  - intros s s'. apply async_load_Ok_groups.
Qed.

(** ** Users that name a group the load did not keep *)

Lemma getitem_Raise {A} (d : gmap string A) k e :
  getitem d k = Raise e → e = KeyError ∧ d !! k = None.
Proof. unfold getitem. destruct (d !! k); [done|]. by intros [= <-]. Qed.

Lemma getitem_Ok {A} (d : gmap string A) k a :
  getitem d k = Ok a ↔ d !! k = Some a.
Proof. unfold getitem. destruct (d !! k); split; congruence. Qed.

Lemma _get_user_groups_loop_Ok ids groups gs :
  _get_user_groups_loop ids groups = Ok gs ↔
  Forall2 (λ i g, groups !! migrated_group_id i = Some g) ids gs.
Proof.
  revert gs. induction ids as [|i ids IH]; intros gs; simpl.
  - split; [intros [= <-]; constructor | by inversion 1].
  - fold (migrated_group_id i). unfold getitem.
    destruct (groups !! migrated_group_id i) as [g|] eqn:Hg.
    + destruct (_get_user_groups_loop ids groups) as [gs'|] eqn:Hl.
      * split.
        -- intros [= <-]. constructor; [done|]. by apply IH.
        -- inversion 1 as [|???? Hi Hrest]; subst.
           apply IH in Hrest. congruence.
      * split; [done|]. inversion 1 as [|???? Hi Hrest]; subst.
        apply IH in Hrest. congruence.
    + split; [done|]. inversion 1; congruence.
Qed.

Lemma _get_user_groups_loop_Raise ids groups e :
  _get_user_groups_loop ids groups = Raise e → e = KeyError.
Proof.
  induction ids as [|i ids IH]; simpl; [done|].
  destruct (getitem groups _) eqn:Hg.
  - destruct (_get_user_groups_loop ids groups); [done|].
    intros [= <-]. by apply IH.
  - intros [= <-]. by apply getitem_Raise in Hg as [-> _].
Qed.

Lemma _get_user_groups_loop_missing ids groups i :
  i ∈ ids → groups !! migrated_group_id i = None →
  _get_user_groups_loop ids groups = Raise KeyError.
Proof.
  intros Hi Hnone.
  destruct (_get_user_groups_loop ids groups) as [gs|e] eqn:Hl.
  - apply _get_user_groups_loop_Ok in Hl.
    apply list_elem_of_lookup_1 in Hi as [n Hn].
    eapply Forall2_lookup_l in Hl as (g & _ & Hg); [|exact Hn].
    congruence.
  - by apply _get_user_groups_loop_Raise in Hl as ->.
Qed.

Lemma _get_user_groups_Raise ud groups migrate e :
  _get_user_groups ud groups migrate = Raise e → e = KeyError.
Proof.
  unfold _get_user_groups.
  destruct (_get_user_groups_loop _ _) eqn:Hl.
  - destruct (_ && _); [|done].
    destruct (getitem _ _) eqn:Hg; [done|].
    intros [= <-]. by apply getitem_Raise in Hg as [-> _].
  - intros [= <-]. by apply _get_user_groups_loop_Raise in Hl.
Qed.

Lemma _load_users_Raise l groups users migrate e :
  _load_users l groups users migrate = Raise e → e = KeyError.
Proof.
  revert users. induction l as [|ud l IH]; intros users; simpl; [done|].
  destruct (_get_user_groups ud groups migrate) eqn:Hg.
  - apply IH.
  - intros [= <-]. by apply _get_user_groups_Raise in Hg.
Qed.

Lemma _load_users_missing l groups users migrate ud i :
  ud ∈ l → i ∈ default [] (ud_group_ids ud) →
  groups !! migrated_group_id i = None →
  _load_users l groups users migrate = Raise KeyError.
Proof.
  intros Hud Hi Hnone. revert users.
  induction l as [|ud' l IH]; intros users; simpl; [by inversion Hud|].
  apply elem_of_cons in Hud as [<-|Hud].
  - unfold _get_user_groups.
    by rewrite (_get_user_groups_loop_missing _ _ i).
  - destruct (_get_user_groups ud' groups migrate) eqn:Hg; [by apply IH|].
    by apply _get_user_groups_Raise in Hg as ->.
Qed.

Lemma async_load_unknown_group s data ud i :
  _loaded s = false →
  ud ∈ doc_users data → i ∈ default [] (ud_group_ids ud) →
  (load_groups data).1 !! migrated_group_id i = None →
  async_load s (Some data) = (Raise KeyError, set_loaded true s).
Proof.
  intros Hs Hud Hi Hnone. unfold async_load. rewrite Hs.
  destruct (load_groups data) as [groups migrate]. simpl in *.
  by rewrite (_load_users_missing _ _ _ _ ud i).
Qed.

Lemma _initialize_groups_body_quarantined groups hg gd :
  quarantined gd →
  _initialize_groups_body (groups, hg) gd
  = (groups,
     {| has_admin_group := has_admin_group hg;
        has_user_group := has_user_group hg;
        has_read_only_group := has_read_only_group hg;
        group_without_policy := Some (gd_id gd) |}).
Proof.
  intros (Hp & ? & ? & ?). unfold _initialize_groups_body, _get_group_policy.
  repeat case_decide; try done. by rewrite Hp.
Qed.

Lemma _initialize_groups_body_other acc gd k :
  gd_id gd ≠ k → (_initialize_groups_body acc gd).1 !! k = acc.1 !! k.
Proof.
  intros Hk. destruct acc as [groups hg].
  unfold _initialize_groups_body.
  destruct (_get_group_policy gd) as [[policy name] sg].
  destruct (_ && _); [done|].
  repeat case_decide; simpl; by rewrite lookup_insert_ne.
Qed.

Lemma _initialize_groups_body_keeps_quarantine acc gd :
  is_Some (group_without_policy acc.2) →
  is_Some (group_without_policy (_initialize_groups_body acc gd).2).
Proof.
  destruct acc as [groups hg]. unfold _initialize_groups_body.
  destruct (_get_group_policy gd) as [[policy name] sg].
  destruct (_ && _); [by eexists|].
  by repeat case_decide.
Qed.

Lemma foldl_initialize_groups_quarantined l acc k :
  (∀ gd, gd ∈ l → gd_id gd = k → quarantined gd) →
  (foldl _initialize_groups_body acc l).1 !! k = acc.1 !! k
  ∧ ((is_Some (group_without_policy acc.2) ∨ ∃ gd, gd ∈ l ∧ gd_id gd = k) →
     is_Some (group_without_policy (foldl _initialize_groups_body acc l).2)).
Proof.
  revert acc. induction l as [|gd l IH]; intros acc Hq; simpl.
  - split; [done|]. intros [?|(gd & Hgd & _)]; [done|]. by inversion Hgd.
  - destruct (IH (_initialize_groups_body acc gd)) as [IH1 IH2].
    { intros gd' Hgd'. apply Hq. by right. }
    split.
    + rewrite IH1. destruct (decide (gd_id gd = k)) as [Hk|Hk].
      * destruct acc as [groups hg].
        rewrite _initialize_groups_body_quarantined; [done|].
        apply Hq; [by left|done].
      * by apply _initialize_groups_body_other.
    + intros [Hs|(gd' & Hgd' & Hk)]; apply IH2.
      * left. by apply _initialize_groups_body_keeps_quarantine.
      * apply elem_of_cons in Hgd' as [->|Hgd']; [|right; eauto].
        left. destruct acc as [groups hg].
        rewrite _initialize_groups_body_quarantined; [by eexists|].
        apply Hq; [by left|done].
Qed.

Lemma load_groups_other data k :
  k ≠ GROUP_ID_ADMIN → k ≠ GROUP_ID_USER → k ≠ GROUP_ID_READ_ONLY →
  (load_groups data).1 !! k = (_initialize_groups data ∅).1 !! k.
Proof.
  intros ???. unfold load_groups.
  destruct (_initialize_groups data ∅) as [groups hg]. simpl.
  destruct (has_admin_group hg), (has_read_only_group hg),
    (has_user_group hg); simpl; by rewrite ?lookup_insert_ne.
Qed.

(** C10: when a user record names a quarantined group — a record without a
    policy under an id that is not reserved, and the only kind of record
    under that id — [_initialize_groups] skips the group without an error
    and remembers it, and the load as a whole then aborts with [KeyError]
    at that membership instead of skipping it. *)
Theorem membership_in_quarantined_group_aborts_load
    (s : AuthStore) (data : Document) (gd : GroupDict) (ud : UserDict) :
  _loaded s = false →
  gd ∈ default [] (doc_groups data) →
  (∀ gd', gd' ∈ default [] (doc_groups data) →
          gd_id gd' = gd_id gd → quarantined gd') →
  ud ∈ doc_users data →
  gd_id gd ∈ default [] (ud_group_ids ud) →
  (_initialize_groups data ∅).1 !! gd_id gd = None
  ∧ is_Some (group_without_policy (_initialize_groups data ∅).2)
  ∧ async_load s (Some data) = (Raise KeyError, set_loaded true s).
Proof.
  intros Hs Hgd Hq Hud Hin.
  destruct (Hq gd Hgd eq_refl) as (_ & Ha & Hu & Hr).
  unfold _initialize_groups at 1 2.
  match goal with |- context [foldl _ ?a ?l] =>
    destruct (foldl_initialize_groups_quarantined l a (gd_id gd) Hq)
      as [Hlook Hsome] end.
  split; [by rewrite Hlook|]. split; [apply Hsome; right; eauto|].
  apply (async_load_unknown_group s data ud (gd_id gd)); try done.
  unfold migrated_group_id. rewrite decide_False by done.
  rewrite load_groups_other by done.
  unfold _initialize_groups. by rewrite Hlook.
Qed.

(** ** Updating a user *)

Lemma resolve_group_ids_missing ids groups i :
  i ∈ ids → groups !! i = None →
  resolve_group_ids ids groups = Raise ValueError.
Proof.
  intros Hi Hnone. induction ids as [|j ids IH]; simpl; [by inversion Hi|].
  destruct (groups !! j) eqn:Hj; [|done].
  apply elem_of_cons in Hi as [->|Hi]; [congruence|].
  by rewrite IH.
Qed.

(** C8: an update whose group-id list holds an id that is not a key of
    [_groups] raises [ValueError] and leaves the store as it was: the
    user's groups, name, [is_active] and [local_only] keep their values,
    and no save is requested. *)
Theorem async_update_user_unknown_group
    (s : AuthStore) (user : string) (name : option string)
    (is_active : option bool) (group_ids : list string)
    (local_only : option bool) (i : string) :
  i ∈ group_ids → _groups s !! i = None →
  async_update_user s user name is_active (Some group_ids) local_only
  = (Raise ValueError, s).
Proof.
  intros Hi Hnone. unfold async_update_user.
  by rewrite (resolve_group_ids_missing _ _ i).
Qed.

(** ** Looking a token up by its secret *)

Lemma held_async_get_refresh_tokens s t :
  t ∈ async_get_refresh_tokens s ↔ held s t.
Proof.
  unfold async_get_refresh_tokens, held.
  rewrite list_elem_of_join. split.
  - intros (l & Ht & Hl).
    apply list_elem_of_fmap in Hl as (u & -> & Hu).
    apply list_elem_of_fmap in Hu as ([k u'] & -> & Hu).
    apply elem_of_map_to_list in Hu.
    apply list_elem_of_fmap in Ht as ([i t'] & -> & Ht).
    apply elem_of_map_to_list in Ht. by exists k, u', i.
  - intros (k & u & i & Hu & Ht).
    exists (map_to_list (user_refresh_tokens u)).*2. split.
    + apply list_elem_of_fmap. exists (i, t). split; [done|].
      by apply elem_of_map_to_list.
    + apply list_elem_of_fmap. exists u. split; [done|].
      apply list_elem_of_fmap. exists (k, u). split; [done|].
      by apply elem_of_map_to_list.
Qed.




(** ** Removing users and refresh tokens *)

Lemma elem_of_keys {A} (m : gmap string A) i :
  i ∈ (map_to_list m).*1 ↔ is_Some (m !! i).
Proof.
  rewrite list_elem_of_fmap. split.
  - intros ([j a] & -> & Hja). apply elem_of_map_to_list in Hja. by eexists.
  - intros [a Ha]. exists (i, a). split; [done|].
    by apply elem_of_map_to_list.
Qed.

Lemma del_token_ids_Ok ids (index : gmap string string) :
  NoDup ids → (∀ i, i ∈ ids → is_Some (index !! i)) →
  ∃ index', del_token_ids ids index = (Ok (), index')
    ∧ (∀ t, t ∈ ids → index' !! t = None)
    ∧ (∀ t, t ∉ ids → index' !! t = index !! t).
Proof.
  intros Hnd. revert index.
  induction Hnd as [|i ids Hi Hnd IH]; intros index Hin; simpl.
  - exists index. split; [done|]. split; [|done]. by inversion 1.
  - destruct (Hin i) as [k Hk]; [by left|]. rewrite Hk.
    destruct (IH (delete i index)) as (index' & Hdel & Hgone & Hkept).
    { intros j Hj. rewrite lookup_delete_ne by (intros ->; done).
      apply Hin. by right. }
    exists index'. split; [done|]. split.
    + intros t Ht. apply elem_of_cons in Ht as [->|Ht]; [|by apply Hgone].
      rewrite Hkept by done. by rewrite lookup_delete_eq.
    + intros t Ht. apply not_elem_of_cons in Ht as [Hne Ht].
      rewrite Hkept by done. by rewrite lookup_delete_ne.
Qed.

Lemma async_remove_user_consistent s user u :
  index_consistent s → _users s !! user = Some u →
  ∃ s', async_remove_user s user = (Ok (), s')
    ∧ _users s' = delete user (_users s)
    ∧ (∀ t, is_Some (user_refresh_tokens u !! t) →
            _token_id_to_user_id s' !! t = None)
    ∧ (∀ t, user_refresh_tokens u !! t = None →
            _token_id_to_user_id s' !! t = _token_id_to_user_id s !! t)
    ∧ index_consistent s'.
Proof.
  intros (Hid & Hfwd & Hbwd) Hu. unfold async_remove_user. rewrite Hu.
  simpl.
  destruct (del_token_ids_Ok (map_to_list (user_refresh_tokens u)).*1
              (_token_id_to_user_id s)) as (index' & -> & Hgone & Hkept).
  { apply NoDup_fst_map_to_list. }
  { intros i Hi. apply elem_of_keys in Hi. rewrite (Hfwd user u i); eauto. }
  eexists. split; [done|]. simpl.
  assert (∀ t, is_Some (user_refresh_tokens u !! t) → index' !! t = None)
    as Hgone'.
  { intros t Ht. apply Hgone. by apply elem_of_keys. }
  assert (∀ t, user_refresh_tokens u !! t = None →
               index' !! t = _token_id_to_user_id s !! t) as Hkept'.
  { intros t Ht. apply Hkept. rewrite elem_of_keys, Ht. by intros [??]. }
  split; [done|]. split; [done|]. split; [done|].
  split; [|split]; simpl.
  - intros k u' Hk. apply lookup_delete_Some in Hk as [_ Hk]. eauto.
  - intros k u' t Hk Ht. apply lookup_delete_Some in Hk as [Hne Hk].
    destruct (user_refresh_tokens u !! t) as [t'|] eqn:Hut.
    + pose proof (Hfwd user u t Hu (mk_is_Some _ _ Hut)) as H1.
      pose proof (Hfwd k u' t Hk Ht) as H2. congruence.
    + rewrite Hkept' by done. eauto.
  - intros t k Ht.
    destruct (user_refresh_tokens u !! t) as [t'|] eqn:Hut.
    + rewrite Hgone' in Ht by eauto. done.
    + rewrite Hkept' in Ht by done.
      destruct (Hbwd t k Ht) as (u' & Hk & Hheld).
      exists u'. split; [|done]. apply lookup_delete_Some. split; [|done].
      intros <-. rewrite Hu in Hk. injection Hk as <-.
      rewrite Hut in Hheld. by destruct Hheld.
Qed.

(** C6: in a store whose index is consistent — as it is in every store
    loaded from a document without a refresh-token id under two users —
    removing a user the store holds returns, takes the user out of the
    user map, leaves none of the user's refresh-token ids in the index,
    and keeps every token of every other user in the index under its
    owner. *)
Theorem async_remove_user_cascades (s : AuthStore) (user : string) (u : User) :
  index_consistent s → _users s !! user = Some u →
  ∃ s', async_remove_user s user = (Ok (), s')
    ∧ _users s' !! user = None
    ∧ (∀ k, k ≠ user → _users s' !! k = _users s !! k)
    ∧ (∀ t, is_Some (user_refresh_tokens u !! t) →
            _token_id_to_user_id s' !! t = None)
    ∧ (∀ k u' t, k ≠ user → _users s !! k = Some u' →
            is_Some (user_refresh_tokens u' !! t) →
            _token_id_to_user_id s' !! t = Some k).
Proof.
  intros Hs Hu.
  destruct (async_remove_user_consistent s user u Hs Hu)
    as (s' & Hrun & Husers & Hgone & Hkept & Hs').
  exists s'. split; [done|]. rewrite Husers.
  split; [apply lookup_delete_eq|].
  split; [by intros k Hk; rewrite lookup_delete_ne|].
  split; [done|].
  intros k u' t Hk Hu' Ht. destruct Hs' as (_ & Hfwd' & _).
  apply (Hfwd' k u' t); [|done].
  rewrite Husers. by rewrite lookup_delete_ne.
Qed.

Lemma async_remove_user_absent s user :
  _users s !! user = None → async_remove_user s user = (Raise KeyError, s).
Proof. intros Hu. unfold async_remove_user. by rewrite Hu. Qed.

Lemma async_remove_refresh_token_unknown s refresh_token :
  _token_id_to_user_id s !! refresh_token = None →
  async_remove_refresh_token s refresh_token = (Ok (), s).
Proof. intros Hi. unfold async_remove_refresh_token. by rewrite Hi. Qed.

Lemma async_remove_refresh_token_empty_owner s refresh_token :
  _token_id_to_user_id s !! refresh_token = Some "" →
  async_remove_refresh_token s refresh_token = (Ok (), s).
Proof. intros Hi. unfold async_remove_refresh_token. by rewrite Hi. Qed.

Lemma async_remove_refresh_token_known s refresh_token k :
  index_consistent s →
  _token_id_to_user_id s !! refresh_token = Some k → k ≠ "" →
  ∃ u, _users s !! k = Some u
    ∧ is_Some (user_refresh_tokens u !! refresh_token)
    ∧ async_remove_refresh_token s refresh_token
      = (Ok (),
         _async_schedule_save DEFAULT_SAVE_DELAY
           (set_token_id_to_user_id
              (delete refresh_token (_token_id_to_user_id s))
              (set_users
                 (<[k := set_user_refresh_tokens
                           (delete refresh_token (user_refresh_tokens u)) u]>
                    (_users s))
                 s))).
Proof.
  intros (Hid & Hfwd & Hbwd) Hi Hk.
  destruct (Hbwd _ _ Hi) as (u & Hu & [t Ht]).
  exists u. split; [done|]. split; [by eexists|].
  unfold async_remove_refresh_token. rewrite Hi. simpl.
  rewrite decide_False by done. by rewrite Hu, Ht.
Qed.

Lemma async_remove_refresh_token_consistent s refresh_token :
  index_consistent s →
  index_consistent (async_remove_refresh_token s refresh_token).2.
Proof.
  intros Hs.
  destruct (_token_id_to_user_id s !! refresh_token) as [k|] eqn:Hi;
    [|by rewrite async_remove_refresh_token_unknown].
  destruct (decide (k = "")) as [->|Hk];
    [by rewrite async_remove_refresh_token_empty_owner|].
  destruct (async_remove_refresh_token_known s refresh_token k Hs Hi Hk)
    as (u & Hu & Hheld & ->).
  destruct Hs as (Hid & Hfwd & Hbwd). split; [|split]; simpl.
  - intros k' u' Hk'. apply lookup_insert_Some in Hk' as [[<- <-]|[_ Hk']];
      simpl; eauto.
  - intros k' u' t Hk' Ht.
    apply lookup_insert_Some in Hk' as [[<- <-]|[Hne Hk']]; simpl in *.
    + destruct (decide (refresh_token = t)) as [->|Hne].
      * rewrite lookup_delete_eq in Ht. by destruct Ht.
      * rewrite lookup_delete_ne in Ht by done.
        rewrite lookup_delete_ne by done. eauto.
    + destruct (decide (refresh_token = t)) as [->|Hne'].
      * pose proof (Hfwd k' u' t Hk' Ht). congruence.
      * rewrite lookup_delete_ne by done. eauto.
  - intros t k' Ht. apply lookup_delete_Some in Ht as [Hne Ht].
    destruct (Hbwd t k' Ht) as (u' & Hu' & Hheld').
    destruct (decide (k = k')) as [<-|Hkk].
    + rewrite Hu in Hu'. injection Hu' as <-.
      eexists. split; [apply lookup_insert_eq|]. simpl.
      by rewrite lookup_delete_ne.
    + exists u'. split; [by rewrite lookup_insert_ne|done].
Qed.

(** ** Creating users and refresh tokens *)

Lemma async_create_user_consistent s new_id name is_owner is_active
    system_generated credentials group_ids local_only :
  index_consistent s → _users s !! new_id = None →
  index_consistent
    (async_create_user s new_id name is_owner is_active system_generated
       credentials group_ids local_only).2.
Proof.
  intros (Hid & Hfwd & Hbwd) Hnew. unfold async_create_user.
  destruct (resolve_group_ids _ _) as [groups|]; [|done].
  assert (∀ nu s',
    user_id nu = new_id → user_refresh_tokens nu = ∅ →
    _users s' = <[new_id := nu]> (_users s) →
    _token_id_to_user_id s' = _token_id_to_user_id s →
    index_consistent s') as Hgen.
  { intros nu s' Hfid Hftok Hus Hix. split; [|split]; rewrite ?Hus, ?Hix.
    - intros k u Hk. apply lookup_insert_Some in Hk as [[<- <-]|[_ Hk]]; eauto.
    - intros k u t Hk Ht.
      apply lookup_insert_Some in Hk as [[<- <-]|[_ Hk]]; [|eauto].
      rewrite Hftok, lookup_empty in Ht. by destruct Ht.
    - intros t k Ht. destruct (Hbwd t k Ht) as (u & Hu & Hheld).
      exists u. split; [|done]. rewrite lookup_insert_ne; [done|].
      intros <-. congruence. }
  destruct credentials as [c|]; simpl.
  - eapply Hgen; [| |simpl; apply alter_insert_eq|]; done.
  - eapply Hgen; [| |simpl; reflexivity|]; done.
Qed.

Lemma async_create_refresh_token_consistent s gen user client_id
    client_name client_icon token_type access_token_expiration expire_at
    credential :
  index_consistent s → is_Some (_users s !! user) →
  _token_id_to_user_id s !! gen_id gen = None →
  index_consistent
    (async_create_refresh_token s gen user client_id client_name client_icon
       token_type access_token_expiration expire_at credential).2.
Proof.
  intros (Hid & Hfwd & Hbwd) [u Hu] Hfresh.
  unfold async_create_refresh_token. rewrite Hu. simpl.
  rewrite (Hid _ _ Hu).
  split; [|split]; simpl.
  - intros k u' Hk. rewrite lookup_alter in Hk. case_decide as Hku.
    + subst k. rewrite Hu in Hk. injection Hk as <-. simpl. eauto.
    + eauto.
  - intros k u' t Hk Ht. rewrite lookup_alter in Hk.
    destruct (decide (gen_id gen = t)) as [<-|Hne].
    + rewrite lookup_insert_eq. case_decide as Hku; [by subst|].
      pose proof (Hfwd k u' _ Hk Ht). congruence.
    + rewrite lookup_insert_ne by done. case_decide as Hku; [|eauto].
      subst k. rewrite Hu in Hk. injection Hk as <-. simpl in Ht.
      rewrite lookup_insert_ne in Ht by done. eauto.
  - intros t k Ht. rewrite lookup_alter.
    apply lookup_insert_Some in Ht as [[<- <-]|[Hne Ht]].
    + rewrite decide_True by done. rewrite Hu. eexists. split; [done|].
      simpl. rewrite lookup_insert_eq. by eexists.
    + destruct (Hbwd t k Ht) as (u' & Hu' & Hheld).
      case_decide as Hku; [|eauto].
      subst k. rewrite Hu in *. injection Hu' as <-.
      eexists. split; [done|]. simpl. by rewrite lookup_insert_ne.
Qed.

Lemma perform_consistent s o :
  index_consistent s → admissible s o → index_consistent (perform s o).
Proof.
  intros Hs Ho. destruct o; simpl in *.
  - by apply async_create_user_consistent.
  - destruct Ho. by apply async_create_refresh_token_consistent.
  - by apply async_remove_refresh_token_consistent.
  - destruct (_users s !! user) as [u|] eqn:Hu.
    + destruct (async_remove_user_consistent s user u Hs Hu)
        as (s' & -> & _ & _ & _ & Hs'). done.
    + by rewrite async_remove_user_absent.
Qed.

Lemma foldl_perform_consistent ops s :
  index_consistent s → admissible_run s ops →
  index_consistent (foldl perform s ops).
Proof.
  revert s. induction ops as [|o ops IH]; intros s Hs Hops; simpl; [done|].
  destruct Hops as [Ho Hops]. apply IH; [|done].
  by apply perform_consistent.
Qed.

(** ** What the passes of [async_load] build *)

Lemma async_load_Some_Ok s data s' :
  async_load s (Some data) = (Ok (), s') →
  _loaded s = false
  ∧ ∃ users0 users1 credentials users2 log,
      _load_users (doc_users data) (load_groups data).1 ∅
        (load_groups data).2 = Ok users0
      ∧ _load_credentials (doc_credentials data) users0 ∅
        = Ok (users1, credentials)
      ∧ _load_refresh_tokens (doc_refresh_tokens data) users1 credentials
        = (Ok users2, log)
      ∧ s' = {| _loaded := true; _users := users2;
                _groups := (load_groups data).1;
                _token_id_to_user_id := _build_token_id_to_user_id_of users2;
                save_requests := save_requests s ++ [INITIAL_LOAD_SAVE_DELAY];
                error_log := error_log s ++ log |}.
Proof.
  unfold async_load. destruct (_loaded s); [done|]. intros Hload.
  split; [done|].
  destruct (load_groups data) as [groups migrate]. simpl in *.
  destruct (_load_users _ _ _ _) as [users0|] eqn:H0; [|done].
  destruct (_load_credentials _ _ _) as [[users1 creds]|] eqn:H1; [|done].
  destruct (_load_refresh_tokens _ _ _) as [[users2|] log] eqn:H2; [|done].
  exists users0, users1, creds, users2, log. by simplify_eq.
Qed.

Lemma _load_users_spec l groups migrate users users' :
  _load_users l groups users migrate = Ok users' →
  ∀ k u', users' !! k = Some u' →
    users !! k = Some u'
    ∨ ∃ ud gs, ud ∈ l ∧ ud_id ud = k
        ∧ _get_user_groups ud groups migrate = Ok gs
        ∧ u' = {| user_name := ud_name ud; user_groups := gs;
                  user_id := ud_id ud; user_is_owner := ud_is_owner ud;
                  user_is_active := ud_is_active ud;
                  user_system_generated := ud_system_generated ud;
                  user_local_only := default false (ud_local_only ud);
                  user_credentials := []; user_refresh_tokens := ∅ |}.
Proof.
  revert users. induction l as [|ud l IH]; intros users; simpl.
  - intros [= <-]. auto.
  - destruct (_get_user_groups ud groups migrate) as [gs|] eqn:Hgs; [|done].
    intros Hl k u' Hk. destruct (IH _ Hl k u' Hk) as [Hin|Hnew].
    + apply lookup_insert_Some in Hin as [[<- <-]|[_ Hin]]; [|by left].
      right. exists ud, gs. split; [by left|done].
    + right. destruct Hnew as (ud' & gs' & Hud' & Hrest).
      exists ud', gs'. split; [by right|done].
Qed.

Lemma same_identity_refl u : same_identity u u.
Proof. by repeat split. Qed.

Lemma same_identity_trans u1 u2 u3 :
  same_identity u1 u2 → same_identity u2 u3 → same_identity u1 u3.
Proof.
  unfold same_identity. intros (?&?&?&?&?&?&?) (?&?&?&?&?&?&?).
  repeat split; congruence.
Qed.

Lemma _load_credentials_spec l users credentials users' credentials' :
  _load_credentials l users credentials = Ok (users', credentials') →
  ∀ k u', users' !! k = Some u' →
    ∃ u, users !! k = Some u ∧ same_identity u u'
         ∧ user_refresh_tokens u' = user_refresh_tokens u.
Proof.
  revert users credentials. induction l as [|cd l IH];
    intros users credentials; simpl.
  - intros [= <- <-] k u' Hk. exists u'.
    split; [done|]. split; [apply same_identity_refl|done].
  - destruct (getitem users (cd_user_id cd)) as [user|] eqn:Huser; [|done].
    apply getitem_Ok in Huser. intros Hl k u' Hk.
    destruct (IH _ _ Hl k u' Hk) as (u1 & Hu1 & Hsame & Htok).
    apply lookup_insert_Some in Hu1 as [[<- <-]|[_ Hu1]]; [|eauto].
    exists user. split; [done|]. split; [|done].
    eapply same_identity_trans; [|exact Hsame]. by repeat split.
Qed.

Lemma _load_refresh_token_Loaded r users credentials token :
  _load_refresh_token r users credentials = Ok (Loaded token) →
  rt_id token = td_id r ∧ is_Some (users !! td_user_id r).
Proof.
  unfold _load_refresh_token.
  destruct (td_jwt_key r); [|done].
  destruct (td_created_at r) as [[]|]; try done.
  destruct (parse_datetime _); [|done].
  destruct (getitem users (td_user_id r)) as [user|] eqn:Huser; [|done].
  apply getitem_Ok in Huser. intros [= <-]. split; [done|by eexists].
Qed.

Lemma _load_refresh_tokens_spec l users credentials users' log :
  _load_refresh_tokens l users credentials = (Ok users', log) →
  ∀ k u', users' !! k = Some u' →
    ∃ u, users !! k = Some u ∧ same_identity u u'
         ∧ user_credentials u' = user_credentials u
         ∧ ∀ t, is_Some (user_refresh_tokens u' !! t) →
             is_Some (user_refresh_tokens u !! t)
             ∨ ∃ r, r ∈ l ∧ td_id r = t ∧ td_user_id r = k.
Proof.
  revert users log. induction l as [|r l IH]; intros users log; simpl.
  - intros [= <- <-] k u' Hk. exists u'. split; [done|].
    split; [apply same_identity_refl|]. split; [done|]. by left.
  - assert (∀ log0, _load_refresh_tokens l users credentials
                    = (Ok users', log0) →
      ∀ k u', users' !! k = Some u' →
      ∃ u, users !! k = Some u ∧ same_identity u u'
         ∧ user_credentials u' = user_credentials u
         ∧ ∀ t, is_Some (user_refresh_tokens u' !! t) →
             is_Some (user_refresh_tokens u !! t)
             ∨ ∃ r', r' ∈ r :: l ∧ td_id r' = t ∧ td_user_id r' = k)
      as Hskip.
    { intros log0 Hl k u' Hk.
      destruct (IH _ _ Hl k u' Hk) as (u & Hu & Hsame & Hcred & Htok).
      exists u. split; [done|]. split; [done|]. split; [done|].
      intros t Ht. destruct (Htok t Ht) as [?|(r' & Hr' & ?)]; [by left|].
      right. exists r'. split; [by right|done]. }
    destruct (_load_refresh_token r users credentials)
      as [[|rec|token]|] eqn:Hr; [by apply Hskip| | |done].
    + destruct (_load_refresh_tokens l users credentials) as [res log0] eqn:Hl.
      intros [= -> <-]. by apply (Hskip log0).
    + apply _load_refresh_token_Loaded in Hr as [Hrid _].
      destruct (getitem users (td_user_id r)) as [user|] eqn:Huser; [|done].
      apply getitem_Ok in Huser. intros Hl k u' Hk.
      destruct (IH _ _ Hl k u' Hk) as (u1 & Hu1 & Hsame & Hcred & Htok).
      apply lookup_insert_Some in Hu1 as [[<- <-]|[_ Hu1]].
      * exists user. split; [done|].
        split; [eapply same_identity_trans; [|exact Hsame]; by repeat split|].
        split; [done|].
        intros t Ht. destruct (Htok t Ht) as [Hold|(r' & Hr' & ?)].
        -- simpl in Hold. destruct (decide (rt_id token = t)) as [<-|Hne].
           ++ right. exists r. split; [by left|done].
           ++ left. by rewrite lookup_insert_ne in Hold.
        -- right. exists r'. split; [by right|done].
      * exists u1. split; [done|]. split; [done|]. split; [done|].
        intros t Ht. destruct (Htok t Ht) as [?|(r' & Hr' & ?)]; [by left|].
        right. exists r'. split; [by right|done].
Qed.

(** The index [_build_token_id_to_user_id] builds. *)
Lemma foldl_insert_ids (ids : list string) (k : string)
    (index : gmap string string) t :
  foldl (λ index token_id, <[token_id := k]> index) index ids !! t
  = if decide (t ∈ ids) then Some k else index !! t.
Proof.
  revert index. induction ids as [|i ids IH]; intros index; cbn [foldl].
  - rewrite decide_False; [done|]. by inversion 1.
  - rewrite IH. destruct (decide (t ∈ ids)) as [Ht|Ht].
    + rewrite decide_True; [done|by right].
    + destruct (decide (i = t)) as [->|Hne].
      * rewrite decide_True by (by left). apply lookup_insert_eq.
      * rewrite decide_False, lookup_insert_ne; [done..|].
        intros [?|?]%elem_of_cons; congruence.
Qed.

Lemma foldl_build_index (l : list (string * User))
    (index : gmap string string) :
  let index' :=
    foldl (λ index '(user_id, user),
             foldl (λ index token_id, <[token_id := user_id]> index) index
               (map_to_list (user_refresh_tokens user)).*1)
      index l in
  (∀ t k, index' !! t = Some k →
     index !! t = Some k
     ∨ ∃ u, (k, u) ∈ l ∧ is_Some (user_refresh_tokens u !! t))
  ∧ (∀ t, (is_Some (index !! t)
           ∨ ∃ k u, (k, u) ∈ l ∧ is_Some (user_refresh_tokens u !! t)) →
          is_Some (index' !! t)).
Proof.
  revert index. induction l as [|[k u] l IH]; intros index; simpl.
  - split; [auto|]. intros t [?|(k & u & Hin & _)]; [done|]. by inversion Hin.
  - destruct (IH (foldl (λ index token_id, <[token_id := k]> index) index
                   (map_to_list (user_refresh_tokens u)).*1)) as [IH1 IH2].
    split.
    + intros t k' Ht. apply IH1 in Ht as [Ht|(u' & Hin & Hheld)].
      * rewrite foldl_insert_ids in Ht. case_decide as Hin; [|by left].
        injection Ht as <-. right. exists u. split; [by left|].
        by apply elem_of_keys.
      * right. exists u'. split; [by right|done].
    + intros t Ht. apply IH2. rewrite foldl_insert_ids.
      destruct (decide (t ∈ (map_to_list (user_refresh_tokens u)).*1))
        as [Hin|Hin]; [left; by eexists|].
      destruct Ht as [?|(k' & u' & Hku & Hheld)]; [by left|].
      apply elem_of_cons in Hku as [[= -> ->]|Hku].
      * by apply elem_of_keys in Hheld.
      * right. eauto.
Qed.

Lemma _build_token_id_to_user_id_of_spec (users : gmap string User) :
  (∀ t k, _build_token_id_to_user_id_of users !! t = Some k →
     ∃ u, users !! k = Some u ∧ is_Some (user_refresh_tokens u !! t))
  ∧ (∀ k u t, users !! k = Some u → is_Some (user_refresh_tokens u !! t) →
       is_Some (_build_token_id_to_user_id_of users !! t)).
Proof.
  unfold _build_token_id_to_user_id_of.
  destruct (foldl_build_index (map_to_list users) ∅) as [H1 H2]. split.
  - intros t k Ht. apply H1 in Ht as [Ht|(u & Hin & Hheld)]; [done|].
    exists u. split; [|done]. by apply elem_of_map_to_list.
  - intros k u t Hu Ht. apply H2. right. exists k, u. split; [|done].
    by apply elem_of_map_to_list.
Qed.

Lemma _set_defaults_consistent s : index_consistent (_set_defaults s).
Proof.
  by split; [|split]; simpl.
Qed.

Lemma async_load_consistent s data s' :
  from_option token_ids_unshared True data →
  async_load s data = (Ok (), s') → index_consistent s'.
Proof.
  intros Hun Hload. destruct data as [data|]; simpl in Hun.
  - apply async_load_Some_Ok in Hload
      as (_ & users0 & users1 & creds & users2 & log & H0 & H1 & H2 & ->).
    assert (∀ k u, users2 !! k = Some u →
      user_id u = k
      ∧ ∀ t, is_Some (user_refresh_tokens u !! t) →
             ∃ r, r ∈ doc_refresh_tokens data ∧ td_id r = t
                  ∧ td_user_id r = k) as Hprov.
    { intros k u2 Hk2.
      destruct (_load_refresh_tokens_spec _ _ _ _ _ H2 k u2 Hk2)
        as (u1 & Hk1 & Hs12 & _ & Htok2).
      destruct (_load_credentials_spec _ _ _ _ _ H1 k u1 Hk1)
        as (u0 & Hk0 & Hs01 & Htok1).
      destruct (_load_users_spec _ _ _ _ _ H0 k u0 Hk0)
        as [?|(ud & gs & _ & Hudk & _ & ->)]; [done|].
      destruct Hs12 as (Hid12 & _). destruct Hs01 as (Hid01 & _).
      split; [by rewrite Hid12, Hid01|].
      intros t Ht. destruct (Htok2 t Ht) as [Hold|?]; [|done].
      rewrite Htok1 in Hold. simpl in Hold. rewrite lookup_empty in Hold.
      by destruct Hold. }
    destruct (_build_token_id_to_user_id_of_spec users2) as [Hb1 Hb2].
    split; [|split]; simpl.
    + intros k u Hk. by apply Hprov.
    + intros k u t Hk Ht. destruct (Hb2 k u t Hk Ht) as [k' Hk'].
      rewrite Hk'. f_equal.
      destruct (Hb1 t k' Hk') as (u' & Hu' & Ht').
      destruct (Hprov k u Hk) as [_ Hp]. destruct (Hp t Ht) as (r & ? & ? & ?).
      destruct (Hprov k' u' Hu') as [_ Hp'].
      destruct (Hp' t Ht') as (r' & ? & ? & ?).
      subst. symmetry. apply Hun; congruence.
    + done.
  - unfold async_load in Hload. destruct (_loaded s); [done|].
    injection Hload as <-. apply _set_defaults_consistent.
Qed.

Lemma index_consistent_dom s :
  index_consistent s → dom (_token_id_to_user_id s) = all_token_ids s.
Proof.
  intros (Hid & Hfwd & Hbwd). apply set_eq. intros t.
  unfold all_token_ids. rewrite elem_of_dom, elem_of_union_list. split.
  - intros [k Hk]. destruct (Hbwd t k Hk) as (u & Hu & Ht).
    exists (dom (user_refresh_tokens u)). split; [|by apply elem_of_dom].
    apply list_elem_of_fmap. exists u. split; [done|].
    apply list_elem_of_fmap. exists (k, u). split; [done|].
    by apply elem_of_map_to_list.
  - intros (X & HX & Ht).
    apply list_elem_of_fmap in HX as (u & -> & Hu).
    apply list_elem_of_fmap in Hu as ([k u'] & -> & Hu).
    apply elem_of_map_to_list in Hu. apply elem_of_dom in Ht.
    exists k. by apply (Hfwd k u').
Qed.

(** C1: when no refresh-token id of the loaded document occurs under two
    users, then after every run of create-user,
    create-refresh-token, remove-refresh-token and remove-user operations
    on the loaded store — new ids being fresh and tokens being created for
    users of the store — the keys of [_token_id_to_user_id] are exactly the
    union of the key sets of the users' refresh-token maps, every entry of
    the index names a user that holds the token, and every token a user
    holds is indexed under that user's id. *)
Theorem token_index_invariant
    (s0 : AuthStore) (data : option Document) (s1 : AuthStore)
    (ops : list Operation) :
  from_option token_ids_unshared True data →
  async_load s0 data = (Ok (), s1) →
  admissible_run s1 ops →
  let s := foldl perform s1 ops in
  dom (_token_id_to_user_id s) = all_token_ids s
  ∧ (∀ t k, _token_id_to_user_id s !! t = Some k →
       ∃ u, _users s !! k = Some u ∧ user_id u = k
            ∧ is_Some (user_refresh_tokens u !! t))
  ∧ (∀ k u t, _users s !! k = Some u →
       is_Some (user_refresh_tokens u !! t) →
       _token_id_to_user_id s !! t = Some (user_id u)).
Proof.
  intros Hun Hload Hops s.
  assert (index_consistent s) as Hs.
  { apply foldl_perform_consistent; [|done].
    by apply (async_load_consistent s0 data). }
  split; [by apply index_consistent_dom|].
  destruct Hs as (Hid & Hfwd & Hbwd). split.
  - intros t k Ht. destruct (Hbwd t k Ht) as (u & Hu & Hheld).
    exists u. eauto.
  - intros k u t Hu Ht. rewrite (Hid k u Hu). eauto.
Qed.

(** ** The migration of users to the admin group *)

Lemma _initialize_groups_body_seen acc gd :
  (_initialize_groups_body acc gd).1 ≠ ∅
  ∨ is_Some (group_without_policy (_initialize_groups_body acc gd).2).
Proof.
  destruct acc as [groups hg]. unfold _initialize_groups_body.
  destruct (_get_group_policy gd) as [[policy name] sg].
  destruct (_ && _); [right; by eexists|].
  left. repeat case_decide; simpl; apply insert_non_empty.
Qed.

Lemma foldl_initialize_groups_seen l acc :
  acc.1 ≠ ∅ ∨ is_Some (group_without_policy acc.2) →
  (foldl _initialize_groups_body acc l).1 ≠ ∅
  ∨ is_Some (group_without_policy (foldl _initialize_groups_body acc l).2).
Proof.
  revert acc. induction l as [|gd l IH]; intros acc Hacc; simpl; [done|].
  apply IH, _initialize_groups_body_seen.
Qed.

(** The migration flag is set exactly when the document has no group
    record at all. *)
Lemma load_groups_migrate data :
  (load_groups data).2 = true ↔ default [] (doc_groups data) = [].
Proof.
  unfold load_groups, _initialize_groups.
  destruct (default [] (doc_groups data)) as [|gd l]; cbn [foldl].
  - split; [done|]. intros _. simpl. by rewrite bool_decide_eq_true_2.
  - split; [|done].
    match goal with |- context [foldl _ ?a l] =>
      pose proof (foldl_initialize_groups_seen l a
                    (_initialize_groups_body_seen _ gd)) as Hseen;
      destruct (foldl _initialize_groups_body a l) as [groups hg] end.
    simpl in *. intros Hm. apply andb_true_iff in Hm as [Hg Hq].
    apply bool_decide_eq_true in Hg, Hq.
    destruct Hseen as [?|[? Hsome]]; congruence.
Qed.

Lemma async_load_users s data s' k u :
  async_load s (Some data) = (Ok (), s') → _users s' !! k = Some u →
  ∃ ud gs, ud ∈ doc_users data ∧ ud_id ud = k
    ∧ _get_user_groups ud (_groups s') (load_groups data).2 = Ok gs
    ∧ user_id u = k ∧ user_groups u = gs
    ∧ user_system_generated u = ud_system_generated ud.
Proof.
  intros Hload Hk. apply async_load_Some_Ok in Hload
    as (_ & users0 & users1 & creds & users2 & log & H0 & H1 & H2 & ->).
  simpl in *.
  destruct (_load_refresh_tokens_spec _ _ _ _ _ H2 k u Hk)
    as (u1 & Hk1 & Hs12 & _).
  destruct (_load_credentials_spec _ _ _ _ _ H1 k u1 Hk1)
    as (u0 & Hk0 & Hs01 & _).
  destruct (_load_users_spec _ _ _ _ _ H0 k u0 Hk0)
    as [?|(ud & gs & Hud & Hudk & Hgs & ->)]; [done|].
  pose proof (same_identity_trans _ _ _ Hs01 Hs12) as Hs.
  unfold same_identity in Hs. simpl in Hs.
  destruct Hs as (? & ? & ? & ? & ? & ? & ?).
  exists ud, gs. repeat split; congruence.
Qed.


(** ** Refresh-token records that are dropped *)







(** ** Reading back what [_data_to_save] wrote *)




Lemma keys_of_values {A} (key : A → string) (m0 : gmap string A) :
  (∀ k a, m0 !! k = Some a → key a = k) →
  key <$> (map_to_list m0).*2 = (map_to_list m0).*1.
Proof.
  intros Hkey. rewrite <-list_fmap_compose. apply list_fmap_ext.
  intros i [k a] Hin. apply list_elem_of_lookup_2, elem_of_map_to_list in Hin.
  simpl. eauto.
Qed.

Lemma normalized_group_id g : group_id (normalized_group g) = group_id g.
Proof. unfold normalized_group. by repeat case_decide. Qed.



















Lemma credentials_of_held s k u c :
  _users s !! k = Some u → c ∈ user_credentials u → c ∈ credentials_of s.
Proof.
  intros Hu Hc. unfold credentials_of. apply list_elem_of_join.
  exists (user_credentials u). split; [done|].
  apply list_elem_of_fmap. exists u. split; [done|].
  apply list_elem_of_fmap. exists (k, u). split; [done|].
  by apply elem_of_map_to_list.
Qed.




(** ** What a loaded store satisfies *)

Lemma groups_wf_insert groups k g :
  groups_wf groups → group_id g = k →
  (group_system_generated g = true ↔ is_system_group_id k) →
  (group_system_generated g = false → is_Some (group_policy g)) →
  groups_wf (<[k := g]> groups).
Proof.
  intros Hwf Hid Hsys Hpol k' g' Hk'.
  apply lookup_insert_Some in Hk' as [[<- <-]|[_ Hk']]; [done|].
  by apply Hwf.
Qed.

Lemma _initialize_groups_body_wf acc gd :
  groups_wf acc.1 → groups_wf (_initialize_groups_body acc gd).1.
Proof.
  destruct acc as [groups hg]. simpl. intros Hwf.
  unfold _initialize_groups_body, _get_group_policy.
  destruct (decide (gd_id gd = GROUP_ID_ADMIN)) as [Ha|Ha]; simpl.
  { apply groups_wf_insert; simpl; try done.
    split; [|done]. intros _. by left. }
  destruct (decide (gd_id gd = GROUP_ID_USER)) as [Hu|Hu]; simpl.
  { apply groups_wf_insert; simpl; try done.
    split; [|done]. intros _. right. by left. }
  destruct (decide (gd_id gd = GROUP_ID_READ_ONLY)) as [Hr|Hr]; simpl.
  { apply groups_wf_insert; simpl; try done.
    split; [|done]. intros _. right. by right. }
  case_bool_decide as Hp; simpl; [done|].
  apply groups_wf_insert; simpl; try done.
  - split; [done|]. by intros [?|[?|?]].
  - intros _. by destruct (gd_policy gd); [eexists|].
Qed.

Lemma foldl_initialize_groups_wf l acc :
  groups_wf acc.1 → groups_wf (foldl _initialize_groups_body acc l).1.
Proof.
  revert acc. induction l as [|gd l IH]; intros acc Hacc; simpl; [done|].
  by apply IH, _initialize_groups_body_wf.
Qed.

Lemma system_groups_wf :
  (∀ groups, groups_wf groups →
     groups_wf (<[GROUP_ID_ADMIN := _system_admin_group]> groups))
  ∧ (∀ groups, groups_wf groups →
       groups_wf (<[GROUP_ID_USER := _system_user_group]> groups))
  ∧ (∀ groups, groups_wf groups →
       groups_wf (<[GROUP_ID_READ_ONLY := _system_read_only_group]> groups)).
Proof.
  unfold is_system_group_id.
  split; [|split]; intros groups Hwf; apply groups_wf_insert; simpl;
    try done; split; auto.
  all: intros _; unfold is_system_group_id; auto.
Qed.

Lemma load_groups_wf data : groups_wf (load_groups data).1.
Proof.
  destruct system_groups_wf as (Ha & Hu & Hr).
  unfold load_groups, _initialize_groups.
  match goal with |- context [foldl _ ?a ?l] =>
    pose proof (foldl_initialize_groups_wf l a) as Hwf;
    destruct (foldl _initialize_groups_body a l) as [groups hg] end.
  simpl in *. specialize (Hwf ltac:(done)).
  destruct (has_admin_group hg), (has_read_only_group hg),
    (has_user_group hg); simpl; auto.
Qed.

Lemma _get_user_groups_members ud groups migrate gs g :
  _get_user_groups ud groups migrate = Ok gs → g ∈ gs →
  ∃ i, groups !! i = Some g.
Proof.
  unfold _get_user_groups.
  destruct (_get_user_groups_loop _ _) as [gs0|] eqn:Hloop; [|done].
  apply _get_user_groups_loop_Ok in Hloop.
  assert (∀ g, g ∈ gs0 → ∃ i, groups !! i = Some g) as Hgs0.
  { intros g0 Hg0. apply list_elem_of_lookup_1 in Hg0 as [n Hn].
    eapply Forall2_lookup_r in Hloop as (i & _ & Hi); [|exact Hn]. eauto. }
  destruct (_ && _).
  - destruct (getitem groups GROUP_ID_ADMIN) as [ga|] eqn:Hga; [|done].
    apply getitem_Ok in Hga. intros [= <-] Hg.
    apply elem_of_app in Hg as [Hg|Hg]; [by apply Hgs0|].
    apply list_elem_of_singleton in Hg as ->. eauto.
  - intros [= <-]. apply Hgs0.
Qed.

Lemma _load_credentials_not_new l users credentials users' credentials' :
  _load_credentials l users credentials = Ok (users', credentials') →
  (∀ k u c, users !! k = Some u → c ∈ user_credentials u →
            cred_is_new c = false) →
  ∀ k u c, users' !! k = Some u → c ∈ user_credentials u →
           cred_is_new c = false.
Proof.
  revert users credentials. induction l as [|cd l IH];
    intros users credentials; simpl.
  - by intros [= <- <-].
  - destruct (getitem users (cd_user_id cd)) as [user|] eqn:Huser; [|done].
    apply getitem_Ok in Huser. intros Hl Hold. apply (IH _ _ Hl).
    intros k u c Hk Hc.
    apply lookup_insert_Some in Hk as [[<- <-]|[_ Hk]]; [|by eapply Hold].
    simpl in Hc. apply elem_of_app in Hc as [Hc|Hc]; [by eapply Hold|].
    by apply list_elem_of_singleton in Hc as ->.
Qed.

Lemma _load_refresh_token_Loaded_owner r users credentials token :
  _load_refresh_token r users credentials = Ok (Loaded token) →
  ∃ user, users !! td_user_id r = Some user
    ∧ rt_id token = td_id r ∧ rt_user token = user_id user.
Proof.
  unfold _load_refresh_token.
  destruct (td_jwt_key r); [|done].
  destruct (td_created_at r) as [[]|]; try done.
  destruct (parse_datetime _); [|done].
  destruct (getitem users (td_user_id r)) as [user|] eqn:Huser; [|done].
  apply getitem_Ok in Huser. intros [= <-]. by exists user.
Qed.

Lemma _load_refresh_tokens_keyed l users credentials users' log :
  _load_refresh_tokens l users credentials = (Ok users', log) →
  (∀ k u, users !! k = Some u → user_id u = k) →
  (∀ k u i t, users !! k = Some u → user_refresh_tokens u !! i = Some t →
              rt_id t = i ∧ rt_user t = k) →
  ∀ k u i t, users' !! k = Some u → user_refresh_tokens u !! i = Some t →
             rt_id t = i ∧ rt_user t = k.
Proof.
  revert users log. induction l as [|r l IH]; intros users log; simpl.
  - by intros [= <- <-].
  - destruct (_load_refresh_token r users credentials)
      as [[|rec|token]|] eqn:Hr; [apply IH| | |done].
    + destruct (_load_refresh_tokens l users credentials) as [res log0] eqn:Hl.
      intros [= -> <-]. by apply (IH _ _ Hl).
    + apply _load_refresh_token_Loaded_owner in Hr
        as (user & Huser & Hrid & Hruser).
      unfold getitem. rewrite Huser. intros Hl Hkey Hold.
      apply (IH _ _ Hl).
      * intros k u Hk.
        apply lookup_insert_Some in Hk as [[<- <-]|[_ Hk]]; simpl; eauto.
      * intros k u i t Hk Hi.
        apply lookup_insert_Some in Hk as [[<- <-]|[_ Hk]]; [|by eapply Hold].
        simpl in Hi. apply lookup_insert_Some in Hi as [[<- <-]|[_ Hi]].
        -- split; [done|]. rewrite Hruser. by apply Hkey.
        -- by eapply Hold.
Qed.

Lemma _set_defaults_store_wf s : store_wf (_set_defaults s).
Proof.
  destruct system_groups_wf as (Ha & Hu & Hr).
  pose proof GROUP_ID_ADMIN_USER. pose proof GROUP_ID_ADMIN_READ_ONLY.
  pose proof GROUP_ID_USER_READ_ONLY.
  split; [apply _set_defaults_consistent|]. simpl.
  split; [by apply Hr, Hu, Ha|].
  split; [by simplify_map_eq|]. by repeat split.
Qed.

(** A store loaded from a document in which no refresh-token id occurs
    under two users is in the state [store_wf] describes. *)
Lemma async_load_store_wf s data s' :
  from_option token_ids_unshared True data →
  async_load s data = (Ok (), s') → store_wf s'.
Proof.
  intros Hun Hload.
  pose proof (async_load_consistent s data s' Hun Hload) as Hcons.
  destruct data as [data|].
  2:{ unfold async_load in Hload. destruct (_loaded s); [done|].
      injection Hload as <-. apply _set_defaults_store_wf. }
  pose proof (async_load_Ok_groups _ _ _ Hload) as Hgroups.
  pose proof (λ k u, async_load_users s data s' k u Hload) as Husers.
  apply async_load_Some_Ok in Hload
    as (_ & users0 & users1 & creds & users2 & log & H0 & H1 & H2 & ->).
  simpl in *. pose proof (load_groups_wf data) as Hgwf.
  split; [done|]. simpl.
  split; [done|]. split.
  { destruct (load_groups_system data) as (-> & -> & ->). by repeat split. }
  assert (∀ k u, users1 !! k = Some u →
    user_id u = k ∧ user_refresh_tokens u = ∅) as Hk1.
  { intros k u1 Hu1.
    destruct (_load_credentials_spec _ _ _ _ _ H1 k u1 Hu1)
      as (u0 & Hu0 & (Hid & _) & Htok).
    destruct (_load_users_spec _ _ _ _ _ H0 k u0 Hu0)
      as [?|(ud & gs & _ & Hudk & _ & ->)]; [done|].
    by rewrite Hid, Htok. }
  split; [|split].
  - intros k u g Hk Hg.
    destruct (Husers k u Hk) as (ud & gs & _ & _ & Hgs & _ & <- & _).
    destruct (_get_user_groups_members _ _ _ _ g Hgs Hg) as [i Hi].
    destruct (Hgwf i g Hi) as [-> _]. done.
  - apply (_load_refresh_tokens_keyed _ _ _ _ _ H2).
    + intros k u Hk. by apply Hk1.
    + intros k u i t Hk Hi. destruct (Hk1 k u Hk) as [_ Hempty].
      by rewrite Hempty in Hi.
  - intros k u c Hk Hc.
    destruct (_load_refresh_tokens_spec _ _ _ _ _ H2 k u Hk)
      as (u1 & Hu1 & _ & Hcred & _).
    rewrite Hcred in Hc.
    apply (_load_credentials_not_new _ _ _ _ _ H1) with k u1; [|done..].
    intros k' u0 c' Hu0 Hc'.
    destruct (_load_users_spec _ _ _ _ _ H0 k' u0 Hu0)
      as [?|(ud & gs & _ & _ & _ & ->)]; [done|].
    by inversion Hc'.
Qed.

(** ** The operations keep a store well-formed *)

Lemma store_wf_step s s' :
  store_wf s → index_consistent s' → _groups s' = _groups s →
  (∀ k u', _users s' !! k = Some u' →
     (∃ u, _users s !! k = Some u
        ∧ user_groups u' = user_groups u
        ∧ user_credentials u' = user_credentials u
        ∧ ∀ i t, user_refresh_tokens u' !! i = Some t →
            user_refresh_tokens u !! i = Some t
            ∨ (rt_id t = i ∧ rt_user t = k))
     ∨ ((∀ g, g ∈ user_groups u' → _groups s !! group_id g = Some g)
        ∧ (∀ c, c ∈ user_credentials u' → cred_is_new c = false)
        ∧ user_refresh_tokens u' = ∅)) →
  store_wf s'.
Proof.
  intros (_ & Hg & Hsys & Hmem & Htok & Hnew) Hcons Hgroups Hstep.
  split; [done|]. rewrite Hgroups. split; [done|]. split; [done|].
  split; [|split].
  - intros k u' g Hk Hin.
    destruct (Hstep k u' Hk) as [(u & Hu & Hgs & _)|(Hgs & _)]; [|eauto].
    rewrite Hgs in Hin. eauto.
  - intros k u' i t Hk Hi.
    destruct (Hstep k u' Hk) as [(u & Hu & _ & _ & Ht)|(_ & _ & Hempty)].
    + destruct (Ht i t Hi) as [Hold|?]; [by eapply Htok|done].
    + by rewrite Hempty in Hi.
  - intros k u' c Hk Hin.
    destruct (Hstep k u' Hk) as [(u & Hu & _ & Hcs & _)|(_ & Hcs & _)];
      [|eauto].
    rewrite Hcs in Hin. eauto.
Qed.

Lemma resolve_group_ids_members ids groups gs g :
  resolve_group_ids ids groups = Ok gs → g ∈ gs → ∃ i, groups !! i = Some g.
Proof.
  revert gs. induction ids as [|i ids IH]; intros gs; simpl.
  - intros [= <-]. by inversion 1.
  - destruct (groups !! i) as [g0|] eqn:Hi; [|done].
    destruct (resolve_group_ids ids groups) as [gs0|]; [|done].
    intros [= <-] Hin. apply elem_of_cons in Hin as [->|Hin]; eauto.
Qed.

Lemma perform_store_wf s o :
  store_wf s → admissible s o → store_wf (perform s o).
Proof.
  intros Hs Ho.
  pose proof (perform_consistent s o (proj1 Hs) Ho) as Hcons.
  destruct o; simpl in *.
  - unfold async_create_user in *.
    destruct (resolve_group_ids _ _) as [gs|] eqn:Hgs; [|done].
    assert (∀ g, g ∈ gs → _groups s !! group_id g = Some g) as Hmem.
    { intros g Hg.
      destruct (resolve_group_ids_members _ _ _ g Hgs Hg) as [i Hi].
      destruct Hs as (_ & Hg' & _). by destruct (Hg' i g Hi) as [-> _]. }
    destruct credentials as [c|]; simpl in *;
      (apply (store_wf_step s); [done|done|done|]); simpl;
      intros k u' Hk; rewrite ?alter_insert_eq in Hk;
      (apply lookup_insert_Some in Hk as [[<- <-]|[_ Hk]];
       [right|left; exists u'; by eauto]); simpl.
    + split; [done|]. split; [|done].
      intros c' Hc'. by apply list_elem_of_singleton in Hc' as ->.
    + split; [done|]. split; [|done]. by inversion 1.
  - destruct Ho as [[u Hu] Hfresh].
    apply (store_wf_step s); [done|done|done|]. simpl.
    intros k u' Hk. left. rewrite lookup_alter in Hk. case_decide as Hku.
    + subst k. rewrite Hu in *. injection Hk as <-. exists u.
      split; [done|]. split; [done|]. split; [done|]. simpl.
      intros i t Hi. apply lookup_insert_Some in Hi as [[<- <-]|[_ Hi]];
        [right|by left].
      simpl. split; [done|]. destruct Hs as ((Hid & _) & _). by apply Hid.
    + exists u'. eauto.
  - destruct (_token_id_to_user_id s !! refresh_token) as [k|] eqn:Hi;
      [|by rewrite async_remove_refresh_token_unknown].
    destruct (decide (k = "")) as [->|Hk];
      [by rewrite async_remove_refresh_token_empty_owner|].
    destruct (async_remove_refresh_token_known s refresh_token k
                (proj1 Hs) Hi Hk) as (u & Hu & Hheld & Heq).
    rewrite Heq in *. apply (store_wf_step s); [done|done|done|]. simpl.
    intros k' u' Hk'. left.
    apply lookup_insert_Some in Hk' as [[<- <-]|[_ Hk']]; [|exists u'; by eauto].
    exists u. split; [done|]. split; [done|]. split; [done|]. simpl.
    intros i t Ht. apply lookup_delete_Some in Ht as [_ Ht]. by left.
  - destruct (_users s !! user) as [u|] eqn:Hu;
      [|by rewrite async_remove_user_absent].
    destruct (async_remove_user_consistent s user u (proj1 Hs) Hu)
      as (s' & Heq & Husers & _).
    rewrite Heq in *. simpl in *.
    apply (store_wf_step s); [done|done| |].
    + unfold async_remove_user in Heq. rewrite Hu in Heq.
      destruct (del_token_ids _ _) as [[[]|e] ix]; [|done].
      by injection Heq as <-.
    + intros k u' Hk. rewrite Husers in Hk.
      apply lookup_delete_Some in Hk as [_ Hk]. left. exists u'. by eauto.
Qed.

Lemma foldl_perform_store_wf ops s :
  store_wf s → admissible_run s ops → store_wf (foldl perform s ops).
Proof.
  revert s. induction ops as [|o ops IH]; intros s Hs Hops; simpl; [done|].
  destruct Hops as [Ho Hops]. apply IH; [|done]. by apply perform_store_wf.
Qed.

(** A store reached from a load by a run of operations is well-formed. *)
Lemma loaded_run_store_wf s0 data s1 ops :
  from_option token_ids_unshared True data →
  async_load s0 data = (Ok (), s1) → admissible_run s1 ops →
  store_wf (foldl perform s1 ops).
Proof.
  intros Hun Hload Hops. apply foldl_perform_store_wf; [|done].
  by apply (async_load_store_wf s0 data).
Qed.


(** ** Loading twice, and loads that abort *)

Lemma async_load_loaded s data :
  _loaded (async_load s data).2 = true.
Proof.
  unfold async_load. destruct (_loaded s) eqn:Hs; [done|].
  destruct data as [data|]; [|done].
  destruct (load_groups data) as [groups migrate].
  destruct (_load_users _ _ _ _) as [users0|]; [|done].
  destruct (_load_credentials _ _ _) as [[users1 creds]|]; [|done].
  by destruct (_load_refresh_tokens _ _ _) as [[users2|] log].
Qed.

(** X1: a store is loaded once.  Whatever a first call of [async_load] was
    given and however it ended, a second call raises [RuntimeError] and
    leaves the store as the first call left it. *)
Theorem async_load_only_once (s : AuthStore) (data data' : option Document) :
  async_load (async_load s data).2 data'
  = (Raise RuntimeError, (async_load s data).2).
Proof.
  pose proof (async_load_loaded s data) as Hl.
  unfold async_load at 1. by rewrite Hl.
Qed.





Lemma _load_users_keys l groups migrate users users' k :
  _load_users l groups users migrate = Ok users' →
  is_Some (users' !! k) →
  is_Some (users !! k) ∨ ∃ ud, ud ∈ l ∧ ud_id ud = k.
Proof.
  intros Hl [u Hu].
  destruct (_load_users_spec _ _ _ _ _ Hl k u Hu)
    as [?|(ud & gs & ? & ? & _)]; [left; by eexists|right; eauto].
Qed.

Lemma _load_credentials_unknown_user l users credentials cd :
  cd ∈ l → users !! cd_user_id cd = None →
  _load_credentials l users credentials = Raise KeyError.
Proof.
  intros Hcd Hnone. revert users credentials Hnone.
  induction l as [|cd' l IH]; intros users credentials Hnone; simpl;
    [by inversion Hcd|].
  unfold getitem. destruct (users !! cd_user_id cd') as [user|] eqn:Hu;
    [|done].
  apply elem_of_cons in Hcd as [->|Hcd]; [congruence|].
  apply IH; [done|]. rewrite lookup_insert_ne; [done|]. congruence.
Qed.

(** X3: a credential record of a user that the document has no record of
    aborts the load with [KeyError]; the store is then marked as loaded and
    is otherwise as before. *)
Theorem credential_of_unknown_user_aborts_load
    (s : AuthStore) (data : Document) (cd : CredDict) :
  _loaded s = false → cd ∈ doc_credentials data →
  (∀ ud, ud ∈ doc_users data → ud_id ud ≠ cd_user_id cd) →
  async_load s (Some data) = (Raise KeyError, set_loaded true s).
Proof.
  intros Hs Hcd Hno. unfold async_load. rewrite Hs.
  destruct (load_groups data) as [groups migrate].
  destruct (_load_users _ _ _ _) as [users0|e0] eqn:H0.
  2:{ by apply _load_users_Raise in H0 as ->. }
  rewrite (_load_credentials_unknown_user _ _ _ cd); [done|done|].
  destruct (users0 !! cd_user_id cd) as [u|] eqn:Hu; [|done].
  destruct (_load_users_keys _ _ _ _ _ (cd_user_id cd) H0)
    as [[? Hin]|(ud & Hud & Hid)]; [by eexists|done|].
  by destruct (Hno ud Hud).
Qed.




(** ** What [_data_to_save] writes *)

Lemma elem_of_doc_users s ud :
  ud ∈ doc_users (_data_to_save s) ↔
  ∃ k u, _users s !! k = Some u ∧ ud = user_to_dict u.
Proof.
  simpl. rewrite list_elem_of_fmap. split.
  - intros (u & -> & Hu). apply list_elem_of_fmap in Hu as ([k u'] & -> & Hu).
    apply elem_of_map_to_list in Hu. by exists k, u'.
  - intros (k & u & Hu & ->). exists u. split; [done|].
    apply list_elem_of_fmap. exists (k, u). split; [done|].
    by apply elem_of_map_to_list.
Qed.

Lemma elem_of_doc_credentials s cd :
  cd ∈ doc_credentials (_data_to_save s) ↔
  ∃ k u c, _users s !! k = Some u ∧ c ∈ user_credentials u
           ∧ cd = credential_to_dict u c.
Proof.
  simpl. rewrite list_elem_of_join. split.
  - intros (l & Hcd & Hl). apply list_elem_of_fmap in Hl as (u & -> & Hu).
    apply list_elem_of_fmap in Hu as ([k u'] & -> & Hu).
    apply elem_of_map_to_list in Hu.
    apply list_elem_of_fmap in Hcd as (c & -> & Hc). by exists k, u', c.
  - intros (k & u & c & Hu & Hc & ->).
    exists (credential_to_dict u <$> user_credentials u). split.
    + apply list_elem_of_fmap. eauto.
    + apply list_elem_of_fmap. exists u. split; [done|].
      apply list_elem_of_fmap. exists (k, u). split; [done|].
      by apply elem_of_map_to_list.
Qed.

Lemma elem_of_doc_refresh_tokens s r :
  r ∈ doc_refresh_tokens (_data_to_save s) ↔
  ∃ k u i t, _users s !! k = Some u ∧ user_refresh_tokens u !! i = Some t
             ∧ r = refresh_token_to_dict u t.
Proof.
  simpl. rewrite list_elem_of_join. split.
  - intros (l & Hr & Hl). apply list_elem_of_fmap in Hl as (u & -> & Hu).
    apply list_elem_of_fmap in Hu as ([k u'] & -> & Hu).
    apply elem_of_map_to_list in Hu.
    apply list_elem_of_fmap in Hr as (t & -> & Ht).
    apply list_elem_of_fmap in Ht as ([i t'] & -> & Ht).
    apply elem_of_map_to_list in Ht. by exists k, u', i, t'.
  - intros (k & u & i & t & Hu & Ht & ->).
    exists (refresh_token_to_dict u
              <$> (map_to_list (user_refresh_tokens u)).*2). split.
    + apply list_elem_of_fmap. exists t. split; [done|].
      apply list_elem_of_fmap. exists (i, t). split; [done|].
      by apply elem_of_map_to_list.
    + apply list_elem_of_fmap. exists u. split; [done|].
      apply list_elem_of_fmap. exists (k, u). split; [done|].
      by apply elem_of_map_to_list.
Qed.

Lemma _data_to_save_unshared s :
  store_wf s → token_ids_unshared (_data_to_save s).
Proof.
  intros ((Hid & Hfwd & _) & _ & _ & _ & Htok & _) r1 r2 H1 H2 Heq.
  apply elem_of_doc_refresh_tokens in H1
    as (k1 & u1 & i1 & t1 & Hu1 & Ht1 & ->).
  apply elem_of_doc_refresh_tokens in H2
    as (k2 & u2 & i2 & t2 & Hu2 & Ht2 & ->).
  simpl in *. destruct (Htok _ _ _ _ Hu1 Ht1) as [Hi1 _].
  destruct (Htok _ _ _ _ Hu2 Ht2) as [Hi2 _].
  pose proof (Hfwd k1 u1 i1 Hu1 (mk_is_Some _ _ Ht1)) as Hx1.
  pose proof (Hfwd k2 u2 i2 Hu2 (mk_is_Some _ _ Ht2)) as Hx2.
  rewrite (Hid _ _ Hu1), (Hid _ _ Hu2). congruence.
Qed.

(** X5: the document that [_data_to_save] writes for a well-formed store is
    closed.  No refresh-token id is under two users; every credential
    record and every refresh-token record names a user that has a record;
    every refresh-token record has a [jwt_key]; and every group id that a
    user record lists has a group record. *)
Theorem data_to_save_is_closed (s : AuthStore) :
  store_wf s →
  token_ids_unshared (_data_to_save s)
  ∧ (∀ cd, cd ∈ doc_credentials (_data_to_save s) →
       ∃ ud, ud ∈ doc_users (_data_to_save s) ∧ ud_id ud = cd_user_id cd)
  ∧ (∀ r, r ∈ doc_refresh_tokens (_data_to_save s) →
       is_Some (td_jwt_key r)
       ∧ ∃ ud, ud ∈ doc_users (_data_to_save s) ∧ ud_id ud = td_user_id r)
  ∧ (∀ ud i, ud ∈ doc_users (_data_to_save s) →
       i ∈ default [] (ud_group_ids ud) →
       ∃ gd, gd ∈ default [] (doc_groups (_data_to_save s)) ∧ gd_id gd = i).
Proof.
  intros Hs. split; [by apply _data_to_save_unshared|].
  destruct Hs as (_ & Hg & _ & Hmem & Htok & _).
  split; [|split].
  - intros cd Hcd.
    apply elem_of_doc_credentials in Hcd as (k & u & c & Hu & _ & ->).
    exists (user_to_dict u). split; [|done].
    apply elem_of_doc_users. eauto.
  - intros r Hr.
    apply elem_of_doc_refresh_tokens in Hr as (k & u & i & t & Hu & _ & ->).
    split; [by eexists|]. exists (user_to_dict u). split; [|done].
    apply elem_of_doc_users. eauto.
  - intros ud i Hud Hi.
    apply elem_of_doc_users in Hud as (k & u & Hu & ->). simpl in Hi.
    apply list_elem_of_fmap in Hi as (g & -> & Hgin).
    exists (group_to_dict g). split; [|done]. simpl.
    apply list_elem_of_fmap. exists g. split; [done|].
    apply list_elem_of_fmap. exists (group_id g, g). split; [done|].
    apply elem_of_map_to_list. by apply (Hmem k u).
Qed.

(** ** The migration is not repeated *)

Lemma perform_groups s o : _groups (perform s o) = _groups s.
Proof.
  destruct o; simpl.
  - unfold async_create_user.
    destruct (resolve_group_ids _ _); [|done]. by destruct credentials.
  - done.
  - unfold async_remove_refresh_token.
    destruct (truthy _); [|done]. destruct (_users s !! _); [|done].
    by destruct (user_refresh_tokens _ !! _).
  - unfold async_remove_user. destruct (_users s !! user); [|done].
    by destruct (del_token_ids _ _) as [[[]|e] ix].
Qed.

Lemma foldl_perform_groups ops s : _groups (foldl perform s ops) = _groups s.
Proof.
  revert s. induction ops as [|o ops IH]; intros s; simpl; [done|].
  by rewrite IH, perform_groups.
Qed.

Lemma async_load_Ok_system_groups s data s' :
  async_load s data = (Ok (), s') →
  _groups s' !! GROUP_ID_ADMIN = Some _system_admin_group
  ∧ _groups s' !! GROUP_ID_USER = Some _system_user_group
  ∧ _groups s' !! GROUP_ID_READ_ONLY = Some _system_read_only_group.
Proof.
  destruct data as [data|]; intros Hload.
  - rewrite (async_load_Ok_groups _ _ _ Hload). apply load_groups_system.
  - unfold async_load in Hload. destruct (_loaded s); [done|].
    injection Hload as <-. simpl.
    pose proof GROUP_ID_ADMIN_USER. pose proof GROUP_ID_ADMIN_READ_ONLY.
    pose proof GROUP_ID_USER_READ_ONLY.
    split_and!; by simplify_map_eq.
Qed.

(** X6: the migration of users to the admin group happens at most at the
    first load.  Once a load has returned, whatever users and tokens are
    created and removed afterwards, the document that [_data_to_save]
    writes has group records, so a load of it does not set the migration
    flag. *)
Theorem saved_document_is_not_migrated_again
    (s0 : AuthStore) (data : option Document) (s1 : AuthStore)
    (ops : list Operation) :
  async_load s0 data = (Ok (), s1) →
  (load_groups (_data_to_save (foldl perform s1 ops))).2 = false.
Proof.
  intros Hload. apply not_true_is_false. intros Hm.
  apply load_groups_migrate in Hm. simpl in Hm.
  apply fmap_nil_inv, fmap_nil_inv, map_to_list_empty_iff in Hm.
  rewrite foldl_perform_groups in Hm.
  apply async_load_Ok_system_groups in Hload as [Hadmin _].
  by rewrite Hm in Hadmin.
Qed.

(** X22: the system groups are always found.  Once a load has returned,
    from a document or from none, and whatever users and tokens are created
    and removed afterwards, [async_get_group] returns the hardcoded admin,
    user and read-only groups for their ids; no operation changes what
    [async_get_group] and [async_get_groups] return. *)
Theorem system_groups_are_always_found
    (s0 : AuthStore) (data : option Document) (s1 : AuthStore)
    (ops : list Operation) :
  async_load s0 data = (Ok (), s1) →
  async_get_group (foldl perform s1 ops) GROUP_ID_ADMIN
  = Some _system_admin_group
  ∧ async_get_group (foldl perform s1 ops) GROUP_ID_USER
    = Some _system_user_group
  ∧ async_get_group (foldl perform s1 ops) GROUP_ID_READ_ONLY
    = Some _system_read_only_group
  ∧ (∀ i, async_get_group (foldl perform s1 ops) i = async_get_group s1 i)
  ∧ async_get_groups (foldl perform s1 ops) = async_get_groups s1.
Proof.
  intros Hload. unfold async_get_group, async_get_groups.
  rewrite foldl_perform_groups.
  apply async_load_Ok_system_groups in Hload as (Ha & Hu & Hr).
  by split_and!.
Qed.

(** ** Saving and loading twice *)






(** ** Creating, updating and removing users *)

Lemma resolve_group_ids_Ok ids groups gs :
  resolve_group_ids ids groups = Ok gs ↔
  Forall2 (λ i g, groups !! i = Some g) ids gs.
Proof.
  revert gs. induction ids as [|i ids IH]; intros gs; simpl.
  - split; [intros [= <-]; constructor|by inversion 1].
  - destruct (groups !! i) as [g|] eqn:Hi.
    + destruct (resolve_group_ids ids groups) as [gs'|] eqn:Hl.
      * split.
        -- intros [= <-]. constructor; [done|]. by apply IH.
        -- inversion 1 as [|???? Hg Hrest]; subst. apply IH in Hrest.
           congruence.
      * split; [done|]. inversion 1 as [|???? Hg Hrest]; subst.
        apply IH in Hrest. congruence.
    + split; [done|]. inversion 1; congruence.
Qed.

(** X8: [async_create_user] with a group id that the store has no group for
    raises [ValueError] and leaves the store as it was: no user is added
    and no save is requested. *)
Theorem async_create_user_unknown_group
    (s : AuthStore) (new_id : string) (name : option string)
    (is_owner is_active system_generated : option bool)
    (credentials : option Credentials) (group_ids : list string)
    (local_only : option bool) (i : string) :
  i ∈ group_ids → _groups s !! i = None →
  async_create_user s new_id name is_owner is_active system_generated
    credentials (Some group_ids) local_only
  = (Raise ValueError, s).
Proof.
  intros Hi Hnone. unfold async_create_user. simpl.
  by rewrite (resolve_group_ids_missing _ _ i).
Qed.


(** X10: removing a user right after creating it undoes the creation.  When
    the new id was free and the group ids resolve, [async_remove_user]
    returns, and the users, the groups and the token index are as before
    the creation; each of the two calls has requested a save. *)
Theorem async_create_user_then_remove
    (s : AuthStore) (new_id : string) (name : option string)
    (is_owner is_active system_generated : option bool)
    (credentials : option Credentials) (group_ids : option (list string))
    (local_only : option bool) (gs : list Group) :
  _users s !! new_id = None →
  Forall2 (λ i g, _groups s !! i = Some g) (default [] group_ids) gs →
  ∃ s', async_remove_user
          (async_create_user s new_id name is_owner is_active
             system_generated credentials group_ids local_only).2 new_id
        = (Ok (), s')
    ∧ _users s' = _users s
    ∧ _groups s' = _groups s
    ∧ _token_id_to_user_id s' = _token_id_to_user_id s
    ∧ save_requests s'
      = save_requests s ++ [DEFAULT_SAVE_DELAY; DEFAULT_SAVE_DELAY].
Proof.
  intros Hnew Hgs. apply resolve_group_ids_Ok in Hgs.
  unfold async_create_user. rewrite Hgs.
  destruct credentials as [c|]; simpl; unfold async_remove_user; simpl.
  - rewrite lookup_alter_eq, lookup_insert_eq. simpl.
    rewrite map_to_list_empty. simpl. eexists. split; [done|]. simpl.
    rewrite alter_insert_eq, delete_insert_eq, delete_id by done.
    by rewrite <-app_assoc.
  - rewrite lookup_insert_eq. simpl. rewrite map_to_list_empty. simpl.
    eexists. split; [done|]. simpl.
    rewrite delete_insert_eq, delete_id by done.
    by rewrite <-app_assoc.
Qed.

(** X11: [async_update_user] on a stored user, with group ids that all
    resolve, returns and replaces just the fields given.  The groups become
    the groups the ids resolve to, in the order given; name, activity and
    [local_only] are replaced where a value is passed; the id, the owner
    and system-generated flags, the credentials and the refresh tokens
    stay.  The other users, the groups and the token index are as before,
    and one save is requested. *)
Theorem async_update_user_known_groups
    (s : AuthStore) (user : string) (u : User) (name : option string)
    (is_active : option bool) (group_ids : option (list string))
    (local_only : option bool) (groups : option (list Group)) :
  _users s !! user = Some u →
  option_Forall2 (Forall2 (λ i g, _groups s !! i = Some g)) group_ids groups →
  ∃ s', async_update_user s user name is_active group_ids local_only
        = (Ok (), s')
    ∧ _users s'
      = <[user := updated_user name is_active groups local_only u]> (_users s)
    ∧ _groups s' = _groups s
    ∧ _token_id_to_user_id s' = _token_id_to_user_id s
    ∧ save_requests s' = save_requests s ++ [DEFAULT_SAVE_DELAY].
Proof.
  intros Hu Hgs. unfold async_update_user.
  assert (∀ m : gmap string User,
            (∀ k, m !! k = if decide (user = k)
                           then Some (updated_user name is_active groups
                                        local_only u)
                           else _users s !! k) →
            m = <[user := updated_user name is_active groups local_only u]>
                  (_users s)) as Hext.
  { intros m Hm. apply map_eq. intros k. rewrite Hm, lookup_insert.
    by case_decide. }
  destruct Hgs as [ids gs Hgs|].
  - apply resolve_group_ids_Ok in Hgs. rewrite Hgs.
    eexists. split; [done|].
    destruct name, is_active, local_only; simpl; split_and!; try done;
      apply Hext; intros k; rewrite !lookup_alter;
      repeat case_decide; try congruence; subst; by rewrite ?Hu.
  - eexists. split; [done|].
    destruct name, is_active, local_only; simpl; split_and!; try done;
      apply Hext; intros k; rewrite ?lookup_alter;
      repeat case_decide; try congruence; subst; rewrite ?Hu; try done.
    by destruct u.
Qed.

(** ** Changes to a user that leave its tokens alone *)

Lemma held_alter_user s (f : User → User) user t :
  (∀ u, user_refresh_tokens (f u) = user_refresh_tokens u) →
  held (set_users (alter f user (_users s)) s) t ↔ held s t.
Proof.
  intros Hf. unfold held. simpl. split.
  - intros (k & u & i & Hu & Ht). rewrite lookup_alter in Hu.
    case_decide as Hk; [|by exists k, u, i].
    subst k. destruct (_users s !! user) as [u0|] eqn:Hu0; [|done].
    injection Hu as <-. rewrite Hf in Ht. by exists user, u0, i.
  - intros (k & u & i & Hu & Ht). destruct (decide (user = k)) as [<-|Hk].
    + exists user, (f u), i. rewrite lookup_alter_eq, Hu, Hf. done.
    + exists k, u, i. by rewrite lookup_alter_ne.
Qed.

Lemma async_get_refresh_token_alter_user s (f : User → User) user i :
  (∀ u, user_refresh_tokens (f u) = user_refresh_tokens u) →
  async_get_refresh_token (set_users (alter f user (_users s)) s) i
  = async_get_refresh_token s i.
Proof.
  intros Hf. unfold async_get_refresh_token, getitem. simpl.
  destruct (truthy _) as [k|]; [|done]. rewrite lookup_alter.
  case_decide as Hk; [|done]. subst k.
  destruct (_users s !! user) as [u|]; [|done]. simpl. by rewrite Hf.
Qed.

(** X12: deactivating a user revokes nothing.  After
    [async_deactivate_user] the token index, the refresh tokens the store
    holds, what [async_get_refresh_token] returns for every id, and the
    credentials and groups of every user are as before; the user, if
    stored, is inactive. *)
Theorem async_deactivate_user_revokes_nothing (s : AuthStore) (user : string) :
  _token_id_to_user_id (async_deactivate_user s user).2
  = _token_id_to_user_id s
  ∧ (∀ t, held (async_deactivate_user s user).2 t ↔ held s t)
  ∧ (∀ i, async_get_refresh_token (async_deactivate_user s user).2 i
          = async_get_refresh_token s i)
  ∧ (∀ k, user_credentials <$> async_get_user (async_deactivate_user s user).2 k
          = user_credentials <$> async_get_user s k)
  ∧ (∀ k, user_groups <$> async_get_user (async_deactivate_user s user).2 k
          = user_groups <$> async_get_user s k)
  ∧ user_is_active <$> async_get_user (async_deactivate_user s user).2 user
    = (λ _, false) <$> async_get_user s user.
Proof.
  unfold async_deactivate_user, async_get_user. simpl. split_and!.
  - done.
  - intros t. by apply (held_alter_user s (set_user_is_active false)).
  - intros i.
    by apply (async_get_refresh_token_alter_user s (set_user_is_active false)).
  - intros k. rewrite lookup_alter. case_decide as Hk; [|done].
    rewrite Hk. by destruct (_users s !! k).
  - intros k. rewrite lookup_alter. case_decide as Hk; [|done].
    rewrite Hk. by destruct (_users s !! k).
  - rewrite lookup_alter_eq. by destruct (_users s !! user).
Qed.

(** X13: of an activation and a deactivation of the same user the last one
    wins: the users are those that the last call alone leaves, and each
    call requests a save. *)
Theorem activate_deactivate_last_wins (s : AuthStore) (user : string) :
  _users (async_activate_user (async_deactivate_user s user).2 user).2
  = _users (async_activate_user s user).2
  ∧ _users (async_deactivate_user (async_activate_user s user).2 user).2
    = _users (async_deactivate_user s user).2
  ∧ save_requests (async_activate_user (async_deactivate_user s user).2 user).2
    = save_requests s ++ [DEFAULT_SAVE_DELAY; DEFAULT_SAVE_DELAY].
Proof.
  unfold async_activate_user, async_deactivate_user. simpl.
  rewrite !alter_alter_eq. split_and!.
  - apply alter_ext. by intros [] _.
  - apply alter_ext. by intros [] _.
  - by rewrite <-app_assoc.
Qed.

(** ** Creating, looking up and removing a refresh token *)

(** X14: in a store whose token index is consistent,
    [async_get_refresh_token] returns.  What it returns for an id is a
    token that a user with a non-empty id holds under that id, and it
    returns such a token whenever there is one. *)
Theorem async_get_refresh_token_consistent (s : AuthStore) (token_id : string) :
  index_consistent s →
  ∃ r, async_get_refresh_token s token_id = Ok r
    ∧ (∀ t, r = Some t →
         ∃ k u, k ≠ "" ∧ _users s !! k = Some u
                ∧ user_refresh_tokens u !! token_id = Some t)
    ∧ (∀ k u t, k ≠ "" → _users s !! k = Some u →
         user_refresh_tokens u !! token_id = Some t → r = Some t).
Proof.
  intros (Hid & Hfwd & Hbwd). unfold async_get_refresh_token, getitem.
  destruct (_token_id_to_user_id s !! token_id) as [k|] eqn:Hi; simpl.
  - destruct (Hbwd _ _ Hi) as (u & Hu & [t Ht]).
    destruct (decide (k = "")) as [->|Hk].
    + exists None. split; [done|]. split; [done|].
      intros k' u' t' Hk' Hu' Ht'.
      pose proof (Hfwd k' u' token_id Hu' (mk_is_Some _ _ Ht')). congruence.
    + rewrite Hu. exists (Some t). split; [by rewrite Ht|]. split.
      * intros t' [= <-]. by exists k, u.
      * intros k' u' t' Hk' Hu' Ht'.
        pose proof (Hfwd k' u' token_id Hu' (mk_is_Some _ _ Ht')). congruence.
  - exists None. split; [done|]. split; [done|].
    intros k' u' t' Hk' Hu' Ht'.
    pose proof (Hfwd k' u' token_id Hu' (mk_is_Some _ _ Ht')). congruence.
Qed.

(** X15: a refresh token created for a stored user with a non-empty id is
    found by its id.  [async_create_refresh_token] returns a token with the
    generated id, token and key, the expiry and the credential passed, and
    no last use; [async_get_refresh_token] then returns it for its id; the
    index sends the id to the user and is unchanged elsewhere; one save is
    requested. *)
Theorem async_create_refresh_token_then_get
    (s : AuthStore) (gen : Generated) (user : string) (u : User)
    (client_id client_name client_icon : option string)
    (token_type : TokenType) (access_token_expiration : timedelta)
    (expire_at : option float) (credential : option Credentials) :
  _users s !! user = Some u → user_id u = user → user ≠ "" →
  ∃ t s',
    async_create_refresh_token s gen user client_id client_name client_icon
      token_type access_token_expiration expire_at credential = (Ok t, s')
    ∧ rt_id t = gen_id gen ∧ rt_user t = user ∧ rt_token t = gen_token gen
    ∧ rt_jwt_key t = gen_jwt_key gen ∧ rt_last_used_at t = None
    ∧ rt_expire_at t = expire_at ∧ rt_credential t = credential
    ∧ async_get_refresh_token s' (gen_id gen) = Ok (Some t)
    ∧ _token_id_to_user_id s' !! gen_id gen = Some user
    ∧ (∀ i, i ≠ gen_id gen →
         _token_id_to_user_id s' !! i = _token_id_to_user_id s !! i)
    ∧ save_requests s' = save_requests s ++ [DEFAULT_SAVE_DELAY].
Proof.
  intros Hu Hid Hne. unfold async_create_refresh_token. rewrite Hu. simpl.
  rewrite Hid. eexists _, _. split; [done|]. simpl. split_and!; try done.
  - unfold async_get_refresh_token, getitem. simpl.
    rewrite lookup_insert_eq. simpl. rewrite decide_False by done.
    rewrite lookup_alter_eq, Hu. simpl. by rewrite lookup_insert_eq.
  - apply lookup_insert_eq.
  - intros i Hi. by rewrite lookup_insert_ne.
Qed.

(** X16: removing a refresh token right after creating it undoes the
    creation.  In a store with a consistent index, for a stored user with a
    non-empty id and a token id not in use, [async_remove_refresh_token]
    returns, and the users and the token index are as before the creation;
    each of the two calls has requested a save. *)
Theorem async_create_refresh_token_then_remove
    (s : AuthStore) (gen : Generated) (user : string)
    (client_id client_name client_icon : option string)
    (token_type : TokenType) (access_token_expiration : timedelta)
    (expire_at : option float) (credential : option Credentials) :
  index_consistent s → is_Some (_users s !! user) → user ≠ "" →
  _token_id_to_user_id s !! gen_id gen = None →
  ∃ s', async_remove_refresh_token
          (async_create_refresh_token s gen user client_id client_name
             client_icon token_type access_token_expiration expire_at
             credential).2 (gen_id gen) = (Ok (), s')
    ∧ _users s' = _users s
    ∧ _token_id_to_user_id s' = _token_id_to_user_id s
    ∧ save_requests s'
      = save_requests s ++ [DEFAULT_SAVE_DELAY; DEFAULT_SAVE_DELAY].
Proof.
  intros (Hid & Hfwd & Hbwd) [u Hu] Hne Hfresh.
  assert (user_refresh_tokens u !! gen_id gen = None) as Hnot.
  { destruct (user_refresh_tokens u !! gen_id gen) as [t|] eqn:Ht; [|done].
    pose proof (Hfwd user u _ Hu (mk_is_Some _ _ Ht)). congruence. }
  unfold async_create_refresh_token, async_remove_refresh_token.
  rewrite Hu. simpl. rewrite (Hid _ _ Hu), lookup_insert_eq. simpl.
  rewrite decide_False by done. rewrite lookup_alter_eq, Hu. simpl.
  rewrite lookup_insert_eq. eexists. split; [done|]. simpl. split_and!.
  - rewrite delete_insert_eq, delete_id by done.
    apply map_eq. intros k. destruct (decide (user = k)) as [<-|Hk].
    + rewrite lookup_insert_eq, Hu. by destruct u.
    + by rewrite lookup_insert_ne, lookup_alter_ne.
  - by rewrite delete_insert_eq, delete_id.
  - by rewrite <-app_assoc.
Qed.

(** ** Removing credentials *)

Lemma find_credentials_Some {A} (is_it : nat → bool) i (l : list A) n :
  find_credentials is_it i l = Some n →
  (i ≤ n < i + length l)%nat ∧ is_it n = true
  ∧ ∀ j, (i ≤ j < n)%nat → is_it j = false.
Proof.
  revert i. induction l as [|a l IH]; intros i; simpl; [done|].
  destruct (is_it i) eqn:Hi.
  - intros [= <-]. split; [lia|]. split; [done|]. lia.
  - intros Hf. destruct (IH _ Hf) as (Hn & Hit & Hbefore).
    split; [lia|]. split; [done|]. intros j Hj.
    destruct (decide (j = i)) as [->|]; [done|]. apply Hbefore. lia.
Qed.

Lemma find_credentials_None {A} (is_it : nat → bool) i (l : list A) :
  find_credentials is_it i l = None ↔
  ∀ j, (i ≤ j < i + length l)%nat → is_it j = false.
Proof.
  revert i. induction l as [|a l IH]; intros i; simpl.
  - split; [lia|done].
  - destruct (is_it i) eqn:Hi.
    + split; [done|]. intros Hall. rewrite Hall in Hi by lia. done.
    + rewrite IH. split; intros Hall j Hj.
      * destruct (decide (j = i)) as [->|]; [done|]. apply Hall. lia.
      * apply Hall. lia.
Qed.

Lemma remove_credentials_loop_spec is_credentials items
    (users : gmap string User) :
  (∀ k u, (k, u) ∈ items →
     find_credentials (is_credentials k) 0 (user_credentials u) = None) ∧
  remove_credentials_loop is_credentials items users = users
  ∨ ∃ k u found, (k, u) ∈ items
      ∧ find_credentials (is_credentials k) 0 (user_credentials u)
        = Some found
      ∧ remove_credentials_loop is_credentials items users
        = <[k := set_user_credentials
                   (delete found (user_credentials u)) u]> users.
Proof.
  induction items as [|[k u] items IH]; simpl.
  - left. split; [|done]. by inversion 1.
  - destruct (find_credentials _ _ _) as [found|] eqn:Hf.
    + right. exists k, u, found. split; [by left|done].
    + destruct IH as [[Hnone ->]|(k' & u' & found & Hin & Hf' & ->)].
      * left. split; [|done]. intros k' u' Hin.
        apply elem_of_cons in Hin as [[= -> ->]|Hin]; eauto.
      * right. exists k', u', found. split; [by right|done].
Qed.

(** X17: [async_remove_credentials] removes at most one credential, and
    always requests a save.  If no stored user has the credentials object,
    the users are unchanged.  Otherwise one user that has it loses its
    first occurrence in its list, and nothing else changes: the other
    credentials of that user keep their order, every refresh token stays,
    also those linked to the removed credentials, and so does the token
    index. *)
Theorem async_remove_credentials_removes_one
    (s : AuthStore) (is_credentials : string → nat → bool) :
  _token_id_to_user_id (async_remove_credentials s is_credentials).2
  = _token_id_to_user_id s
  ∧ save_requests (async_remove_credentials s is_credentials).2
    = save_requests s ++ [DEFAULT_SAVE_DELAY]
  ∧ (∀ k, user_refresh_tokens
            <$> _users (async_remove_credentials s is_credentials).2 !! k
          = user_refresh_tokens <$> _users s !! k)
  ∧ (((∀ k u j, _users s !! k = Some u →
         (j < length (user_credentials u))%nat →
         is_credentials k j = false)
      ∧ _users (async_remove_credentials s is_credentials).2 = _users s)
     ∨ ∃ k u j, _users s !! k = Some u
         ∧ (j < length (user_credentials u))%nat
         ∧ is_credentials k j = true
         ∧ (∀ j', (j' < j)%nat → is_credentials k j' = false)
         ∧ _users (async_remove_credentials s is_credentials).2
           = <[k := set_user_credentials (delete j (user_credentials u)) u]>
               (_users s)).
Proof.
  unfold async_remove_credentials. simpl. split; [done|]. split; [done|].
  destruct (remove_credentials_loop_spec is_credentials
              (map_to_list (_users s)) (_users s))
    as [[Hnone ->]|(k & u & found & Hin & Hf & ->)].
  - split; [done|]. left. split; [|done]. intros k u j Hu Hj.
    apply elem_of_map_to_list in Hu.
    pose proof (proj1 (find_credentials_None _ _ _) (Hnone k u Hu)) as Hall.
    apply Hall. lia.
  - apply elem_of_map_to_list in Hin. split.
    { intros k'. destruct (decide (k = k')) as [<-|Hk].
      - by rewrite lookup_insert_eq, Hin.
      - by rewrite lookup_insert_ne. }
    right. apply find_credentials_Some in Hf as (Hn & Hit & Hbefore).
    exists k, u, found. split; [done|]. split; [lia|]. split; [done|].
    split; [|done]. intros j' Hj'. apply Hbefore. lia.
Qed.

(** ** The list of all refresh tokens *)

Lemma NoDup_join_ids (ul : list (string * User)) :
  NoDup ul.*1 →
  (∀ k u i t, (k, u) ∈ ul → user_refresh_tokens u !! i = Some t →
     rt_id t = i) →
  (∀ k1 u1 k2 u2 i, (k1, u1) ∈ ul → (k2, u2) ∈ ul →
     is_Some (user_refresh_tokens u1 !! i) →
     is_Some (user_refresh_tokens u2 !! i) → k1 = k2) →
  NoDup (rt_id <$> mjoin ((λ u, (map_to_list (user_refresh_tokens u)).*2)
                            <$> ul.*2)).
Proof.
  induction ul as [|[k u] ul IH]; intros Hnd Hkey Hown; simpl;
    [constructor|].
  rewrite fmap_cons in Hnd. apply NoDup_cons in Hnd as [Hk Hnd].
  rewrite fmap_app. apply NoDup_app. split; [|split].
  - rewrite (keys_of_values rt_id).
    + apply NoDup_fst_map_to_list.
    + intros i t Ht. apply (Hkey k u); [by left|done].
  - intros i Hi1 Hi2.
    rewrite (keys_of_values rt_id) in Hi1
      by (intros i' t Ht; apply (Hkey k u); [by left|done]).
    apply elem_of_keys in Hi1.
    apply list_elem_of_fmap in Hi2 as (t & -> & Ht).
    apply list_elem_of_join in Ht as (l & Ht & Hl).
    apply list_elem_of_fmap in Hl as (u' & -> & Hu').
    apply list_elem_of_fmap in Hu' as ([k' u''] & -> & Hu').
    apply list_elem_of_fmap in Ht as ([i' t'] & -> & Ht).
    apply elem_of_map_to_list in Ht. simpl in *.
    assert (rt_id t' = i') as Hid by (apply (Hkey k' u''); [by right|done]).
    rewrite Hid in Hi1.
    assert (k = k') as <-.
    { apply (Hown k u k' u'' i'); [by left|by right|done|by eexists]. }
    apply Hk. apply list_elem_of_fmap. by exists (k, u'').
  - apply IH; [done| |].
    + intros k' u' i t Hin Ht. apply (Hkey k' u'); [by right|done].
    + intros k1 u1 k2 u2 i H1 H2. apply Hown; by right.
Qed.

(** X18: in a well-formed store [async_get_refresh_tokens] lists every
    indexed token once: the ids of the tokens listed are the keys of the
    token index up to the order, and their number is the size of the
    index. *)
Theorem async_get_refresh_tokens_lists_index (s : AuthStore) :
  store_wf s →
  rt_id <$> async_get_refresh_tokens s
  ≡ₚ (map_to_list (_token_id_to_user_id s)).*1
  ∧ length (async_get_refresh_tokens s) = size (_token_id_to_user_id s).
Proof.
  intros ((Hid & Hfwd & Hbwd) & _ & _ & _ & Htok & _).
  assert (rt_id <$> async_get_refresh_tokens s
          ≡ₚ (map_to_list (_token_id_to_user_id s)).*1) as Hperm.
  { apply NoDup_Permutation.
    - apply NoDup_join_ids.
      + apply NoDup_fst_map_to_list.
      + intros k u i t Hin Ht. apply elem_of_map_to_list in Hin.
        by apply (Htok k u i t).
      + intros k1 u1 k2 u2 i H1 H2 Ht1 Ht2.
        apply elem_of_map_to_list in H1, H2.
        pose proof (Hfwd _ _ _ H1 Ht1). pose proof (Hfwd _ _ _ H2 Ht2).
        congruence.
    - apply NoDup_fst_map_to_list.
    - intros i. rewrite elem_of_keys, list_elem_of_fmap. split.
      + intros (t & -> & Ht). apply held_async_get_refresh_tokens in Ht
          as (k & u & i & Hu & Hi).
        destruct (Htok k u i t Hu Hi) as [-> _].
        rewrite (Hfwd k u i Hu); by eexists.
      + intros [k Hk]. destruct (Hbwd i k Hk) as (u & Hu & [t Ht]).
        exists t. split; [by destruct (Htok k u i t Hu Ht)|].
        apply held_async_get_refresh_tokens. by exists k, u, i. }
  split; [done|].
  apply Permutation_length in Hperm.
  rewrite !length_fmap in Hperm. rewrite Hperm.
  apply length_map_to_list.
Qed.

(** ** The token index under the changes to a user *)

Lemma index_consistent_alter_user s (f : User → User) user :
  (∀ u, user_id (f u) = user_id u) →
  (∀ u, user_refresh_tokens (f u) = user_refresh_tokens u) →
  index_consistent s →
  index_consistent (set_users (alter f user (_users s)) s).
Proof.
  intros Hfid Hftok (Hid & Hfwd & Hbwd). split; [|split]; simpl.
  - intros k u'. rewrite lookup_alter.
    destruct (decide (user = k)) as [<-|Hk]; [|by apply Hid].
    destruct (_users s !! user) as [u|] eqn:Hu; [|done].
    intros [= <-]. rewrite Hfid. by apply Hid.
  - intros k u' t. rewrite lookup_alter.
    destruct (decide (user = k)) as [<-|Hk]; [|by apply Hfwd].
    destruct (_users s !! user) as [u|] eqn:Hu; [|done].
    intros [= <-]. rewrite Hftok. by apply Hfwd.
  - intros t k Hk. destruct (Hbwd t k Hk) as (u & Hu & Ht).
    rewrite lookup_alter.
    destruct (decide (user = k)) as [<-|Hne]; [|by exists u].
    rewrite Hu. exists (f u). by rewrite Hftok.
Qed.

Lemma index_consistent_schedule_save d s :
  index_consistent s → index_consistent (_async_schedule_save d s).
Proof. done. Qed.

(** X23: the changes to a user keep the token index consistent.  In a store
    with a consistent index, [async_update_user], whether it returns or
    raises, [async_activate_user], [async_deactivate_user] and
    [async_remove_credentials] leave a store with a consistent index. *)
Theorem index_consistent_under_user_changes
    (s : AuthStore) (user : string) (name : option string)
    (is_active : option bool) (group_ids : option (list string))
    (local_only : option bool) (is_credentials : string → nat → bool) :
  index_consistent s →
  index_consistent
    (async_update_user s user name is_active group_ids local_only).2
  ∧ index_consistent (async_activate_user s user).2
  ∧ index_consistent (async_deactivate_user s user).2
  ∧ index_consistent (async_remove_credentials s is_credentials).2.
Proof.
  intros Hs. split_and!.
  - unfold async_update_user.
    destruct group_ids as [ids|];
      [destruct (resolve_group_ids ids (_groups s)) as [groups|e];
         [|done]|];
      destruct name, is_active, local_only; cbv beta iota zeta;
      apply index_consistent_schedule_save;
      repeat (apply index_consistent_alter_user; [done|done|]); done.
  - by apply index_consistent_alter_user.
  - by apply index_consistent_alter_user.
  - unfold async_remove_credentials. simpl.
    apply index_consistent_schedule_save.
    destruct (remove_credentials_loop_spec is_credentials
                (map_to_list (_users s)) (_users s))
      as [[_ ->]|(k & u & found & Hin & _ & ->)]; [by destruct s|].
    apply elem_of_map_to_list in Hin.
    assert (<[k := set_user_credentials (delete found (user_credentials u)) u]>
              (_users s)
            = alter (λ u, set_user_credentials
                            (delete found (user_credentials u)) u)
                k (_users s)) as ->.
    { apply map_eq. intros k'. rewrite lookup_alter.
      destruct (decide (k = k')) as [<-|Hk].
      - by rewrite lookup_insert_eq, Hin.
      - by rewrite lookup_insert_ne. }
    by apply index_consistent_alter_user.
Qed.

End properties.

(** * Properties of the expiry of refresh tokens *)

Section properties_clock.
Context `{Clock}.

Lemma token_of_alter_refresh_token f user token_id s k j :
  token_of (alter_refresh_token f user token_id s) k j
  = if decide (k = user ∧ j = token_id)
    then f <$> token_of s k j else token_of s k j.
Proof.
  unfold token_of, alter_refresh_token. simpl. rewrite lookup_alter.
  destruct (decide (k = user ∧ j = token_id)) as [[-> ->]|Hn].
  - rewrite decide_True by reflexivity.
    destruct (_users s !! user) as [u|]; simpl; [|reflexivity].
    rewrite lookup_alter. by rewrite decide_True by reflexivity.
  - destruct (decide (user = k)) as [<-|Hk]; [|reflexivity].
    destruct (_users s !! user) as [u|]; simpl; [|reflexivity].
    rewrite lookup_alter.
    destruct (decide (token_id = j)) as [<-|Hj]; [|reflexivity].
    exfalso. apply Hn. split; reflexivity.
Qed.

Lemma token_of_alter_refresh_token_eq f user token_id s :
  token_of (alter_refresh_token f user token_id s) user token_id
  = f <$> token_of s user token_id.
Proof.
  rewrite token_of_alter_refresh_token.
  destruct (decide _) as [|Hn]; [reflexivity|].
  exfalso. apply Hn. split; reflexivity.
Qed.

Lemma token_of_alter_refresh_token_ne f user token_id s k j :
  ¬ (k = user ∧ j = token_id) →
  token_of (alter_refresh_token f user token_id s) k j = token_of s k j.
Proof.
  intros Hkj. rewrite token_of_alter_refresh_token.
  destruct (decide _) as [Hy|]; [|reflexivity].
  exfalso. exact (Hkj Hy).
Qed.

Lemma token_of_schedule_save d s k j :
  token_of (_async_schedule_save d s) k j = token_of s k j.
Proof. done. Qed.

Lemma alter_refresh_token_identity f user token_id s k u :
  _users s !! k = Some u →
  ∃ u', _users (alter_refresh_token f user token_id s) !! k = Some u'
    ∧ same_identity u u'
    ∧ user_credentials u' = user_credentials u
    ∧ dom (user_refresh_tokens u') = dom (user_refresh_tokens u).
Proof.
  intros Hu. unfold alter_refresh_token. simpl. rewrite lookup_alter.
  case_decide as Hk.
  - subst k. rewrite Hu. simpl. eexists. split; [done|].
    split; [by repeat split|]. split; [done|]. simpl.
    apply set_eq. intros j. rewrite !elem_of_dom, lookup_alter.
    case_decide; [|done]. subst j. by rewrite fmap_is_Some.
  - exists u. split; [done|]. split; [by repeat split|done].
Qed.

Lemma alter_refresh_token_consistent f user token_id s :
  index_consistent s →
  index_consistent (alter_refresh_token f user token_id s).
Proof.
  intros (Hid & Hfwd & Hbwd). split; [|split].
  - intros k u'. unfold alter_refresh_token. simpl. rewrite lookup_alter.
    case_decide as Hk; [|by apply Hid]. subst k.
    destruct (_users s !! user) as [u|] eqn:Hu; [|done].
    intros [= <-]. simpl. by apply Hid.
  - intros k u' t. unfold alter_refresh_token. simpl. rewrite lookup_alter.
    case_decide as Hk; [|by apply Hfwd]. subst k.
    destruct (_users s !! user) as [u|] eqn:Hu; [|done].
    intros [= <-]. simpl. rewrite lookup_alter.
    case_decide as Ht; [|by apply Hfwd]. subst t.
    rewrite fmap_is_Some. by apply Hfwd.
  - intros t k Hk. destruct (Hbwd t k Hk) as (u & Hu & Ht).
    destruct (alter_refresh_token_identity f user token_id s k u Hu)
      as (u' & Hu' & _ & _ & Hdom).
    exists u'. split; [done|].
    apply elem_of_dom. rewrite Hdom. by apply elem_of_dom.
Qed.

(** X19: [async_set_expiry] on a token the store holds.  Enabling the
    expiry of a token that has one changes nothing and requests no save;
    enabling it on a token without one sets it to the stamp of the last
    use, or of now for a token never used, plus
    [REFRESH_TOKEN_EXPIRATION]; disabling clears it.  The last two request
    a save.  The token's secret and last use, every other token and the
    token index stay, and a consistent index stays consistent. *)
Theorem async_set_expiry_spec
    (s : AuthStore) (utcnow : datetime) (user token_id : string)
    (enable_expiry : bool) (t : RefreshToken) :
  token_of s user token_id = Some t →
  ∃ s', async_set_expiry s utcnow user token_id enable_expiry
        = Some (Ok (), s')
    ∧ (enable_expiry = true → is_Some (rt_expire_at t) → s' = s)
    ∧ (enable_expiry = true → rt_expire_at t = None →
         (rt_expire_at <$> token_of s' user token_id)
         = Some (Some (float_add
                         (timestamp (default utcnow (rt_last_used_at t)))
                         REFRESH_TOKEN_EXPIRATION))
         ∧ save_requests s' = save_requests s ++ [DEFAULT_SAVE_DELAY])
    ∧ (enable_expiry = false →
         (rt_expire_at <$> token_of s' user token_id) = Some None
         ∧ save_requests s' = save_requests s ++ [DEFAULT_SAVE_DELAY])
    ∧ (rt_token <$> token_of s' user token_id) = Some (rt_token t)
    ∧ (rt_last_used_at <$> token_of s' user token_id)
      = Some (rt_last_used_at t)
    ∧ (∀ k j, ¬ (k = user ∧ j = token_id) →
         token_of s' k j = token_of s k j)
    ∧ _token_id_to_user_id s' = _token_id_to_user_id s
    ∧ (index_consistent s → index_consistent s').
Proof.
  intros Ht. unfold async_set_expiry. fold (token_of s user token_id).
  rewrite Ht. simpl.
  destruct enable_expiry; [destruct (rt_expire_at t) as [x|] eqn:Hx|].
  - exists s. split; [done|]. rewrite Ht.
    split_and!; done.
  - eexists. split; [done|].
    rewrite token_of_schedule_save, token_of_alter_refresh_token_eq, Ht.
    split_and!; try done.
    + intros k j Hkj.
      by rewrite token_of_schedule_save,
        token_of_alter_refresh_token_ne by done.
    + apply alter_refresh_token_consistent.
  - eexists. split; [done|].
    rewrite token_of_schedule_save, token_of_alter_refresh_token_eq, Ht.
    split_and!; try done.
    + intros k j Hkj.
      by rewrite token_of_schedule_save,
        token_of_alter_refresh_token_ne by done.
    + apply alter_refresh_token_consistent.
Qed.

(** X20: enabling the expiry twice is enabling it once: after a call of
    [async_set_expiry] that enables it, a second one, at whatever time,
    leaves the store as it is and requests no save. *)
Theorem async_set_expiry_enable_twice
    (s s1 : AuthStore) (utcnow utcnow' : datetime) (user token_id : string)
    (r : result unit) :
  async_set_expiry s utcnow user token_id true = Some (r, s1) →
  async_set_expiry s1 utcnow' user token_id true = Some (Ok (), s1).
Proof.
  unfold async_set_expiry. fold (token_of s user token_id).
  fold (token_of s1 user token_id).
  destruct (token_of s user token_id) as [t|] eqn:Ht; [|done]. simpl.
  destruct (rt_expire_at t) as [x|] eqn:Hx.
  - intros [= <- <-]. rewrite Ht. simpl. by rewrite Hx.
  - intros [= <- <-].
    by rewrite token_of_schedule_save, token_of_alter_refresh_token_eq, Ht.
Qed.

(** X21: [async_log_refresh_token_usage] on a token the store holds
    records the time and the address of the use.  A token without expiry
    stays without; an expiry that is zero stays zero; any other expiry
    becomes the stamp of the use plus [REFRESH_TOKEN_EXPIRATION].  Id,
    owner, secret, key, creation time and credential of the token, every
    other token and the token index stay, a consistent index stays
    consistent, and one save is requested. *)
Theorem async_log_refresh_token_usage_spec
    (s : AuthStore) (utcnow : datetime) (user token_id : string)
    (remote_ip : option string) (t : RefreshToken) :
  token_of s user token_id = Some t →
  ∃ t',
    token_of (async_log_refresh_token_usage s utcnow user token_id
                remote_ip).2 user token_id = Some t'
    ∧ rt_last_used_at t' = Some utcnow
    ∧ rt_last_used_ip t' = remote_ip
    ∧ rt_expire_at t'
      = match rt_expire_at t with
        | Some x =>
            if float_bool x
            then Some (float_add (timestamp utcnow) REFRESH_TOKEN_EXPIRATION)
            else Some x
        | None => None
        end
    ∧ rt_id t' = rt_id t ∧ rt_user t' = rt_user t
    ∧ rt_token t' = rt_token t ∧ rt_jwt_key t' = rt_jwt_key t
    ∧ rt_created_at t' = rt_created_at t
    ∧ rt_credential t' = rt_credential t
    ∧ (∀ k j, ¬ (k = user ∧ j = token_id) →
         token_of (async_log_refresh_token_usage s utcnow user token_id
                     remote_ip).2 k j = token_of s k j)
    ∧ _token_id_to_user_id
        (async_log_refresh_token_usage s utcnow user token_id remote_ip).2
      = _token_id_to_user_id s
    ∧ (index_consistent s →
       index_consistent
         (async_log_refresh_token_usage s utcnow user token_id remote_ip).2)
    ∧ save_requests
        (async_log_refresh_token_usage s utcnow user token_id remote_ip).2
      = save_requests s ++ [DEFAULT_SAVE_DELAY].
Proof.
  intros Ht. exists (log_usage utcnow remote_ip t).
  unfold async_log_refresh_token_usage. simpl.
  rewrite token_of_schedule_save, token_of_alter_refresh_token_eq, Ht.
  assert (∀ {A} (field : RefreshToken → A) (v : A),
    (∀ e, field (set_rt_expire_at e (set_rt_last_used (Some utcnow)
                                       remote_ip t)) = v) →
    field (set_rt_last_used (Some utcnow) remote_ip t) = v →
    field (log_usage utcnow remote_ip t) = v) as Hfield.
  { intros A field v Hset Hused. unfold log_usage.
    destruct (rt_expire_at _) as [x|]; [|done].
    by destruct (float_bool x). }
  split_and!; try done; try (by apply Hfield).
  - unfold log_usage. simpl.
    destruct (rt_expire_at t) as [x|] eqn:Hx; [|done].
    by destruct (float_bool x).
  - intros k j Hkj.
    by rewrite token_of_schedule_save,
      token_of_alter_refresh_token_ne by done.
  - apply alter_refresh_token_consistent.
Qed.

End properties_clock.

(** * The properties on the sample data *)

#[local] Existing Instance sample_imports.
#[local] Existing Instance sample_clock.
Import Sample.


Lemma old_document_unshared : token_ids_unshared old_document.
Proof.
  intros r1 r2 H1 H2.
  apply elem_of_cons in H1 as [->|H1]; [|apply list_elem_of_singleton in H1 as ->];
    (apply elem_of_cons in H2 as [->|H2];
     [|apply list_elem_of_singleton in H2 as ->]); by vm_compute.
Qed.

Lemma old_document_loads :
  async_load __init__ (Some old_document) = (Ok (), loaded (Some old_document)).
Proof. by vm_compute. Qed.

Lemma old_document_store_wf : store_wf (loaded (Some old_document)).
Proof.
  apply (async_load_store_wf __init__ (Some old_document));
    [apply old_document_unshared|apply old_document_loads].
Qed.


(** C1 at the old document, followed by the creation of a user and of a
    token for it, the removal of a token and the removal of a user. *)
Lemma token_index_invariant_witness :
  token_ids_unshared old_document
  ∧ async_load __init__ (Some old_document)
    = (Ok (), loaded (Some old_document))
  ∧ admissible_run (loaded (Some old_document)) sample_run
  ∧ dom (_token_id_to_user_id
           (foldl perform (loaded (Some old_document)) sample_run))
    = all_token_ids (foldl perform (loaded (Some old_document)) sample_run).
Proof.
  assert (admissible_run (loaded (Some old_document)) sample_run) as Hrun.
  { vm_compute. repeat split; by eexists. }
  split; [apply old_document_unshared|]. split; [apply old_document_loads|].
  split; [exact Hrun|].
  apply (token_index_invariant __init__ (Some old_document)
           (loaded (Some old_document)) sample_run
           old_document_unshared old_document_loads Hrun).
Defined.

(** C1 needs the ids to be unshared: after a load of a document with one
    token id under two users, removing that token leaves it with the first
    user and not in the index. *)
Lemma shared_token_id_breaks_index :
  async_load __init__ (Some shared_token_document)
  = (Ok (), loaded (Some shared_token_document))
  ∧ admissible_run (loaded (Some shared_token_document))
      [RemoveRefreshToken "t"]
  ∧ _token_id_to_user_id
      (foldl perform (loaded (Some shared_token_document))
         [RemoveRefreshToken "t"]) !! "t" = None
  ∧ (∃ u, _users
            (foldl perform (loaded (Some shared_token_document))
               [RemoveRefreshToken "t"]) !! "a" = Some u
          ∧ is_Some (user_refresh_tokens u !! "t"))
  ∧ dom (_token_id_to_user_id
           (foldl perform (loaded (Some shared_token_document))
              [RemoveRefreshToken "t"]))
    ≠ all_token_ids
        (foldl perform (loaded (Some shared_token_document))
           [RemoveRefreshToken "t"]).
Proof.
  split; [by vm_compute|]. split; [done|]. split; [by vm_compute|].
  split.
  - eexists. split; [vm_compute; reflexivity|]. by eexists.
  - intros Heq.
    assert ("t" ∈ all_token_ids
              (foldl perform (loaded (Some shared_token_document))
                 [RemoveRefreshToken "t"])) as Hin
      by (apply (bool_decide_unpack _); by vm_compute).
    rewrite <-Heq in Hin. apply elem_of_dom in Hin as [k Hk].
    by vm_compute in Hk.
Qed.





(** C4 at a record of the admin group that stores another name and
    policy. *)
Lemma system_group_record_loads_hardcoded_witness :
  group_dict "system-admin" "Admins" (Some "none")
    ∈ default [] (doc_groups system_groups_document)
  ∧ _get_group_policy (group_dict "system-admin" "Admins" (Some "none"))
    = (Some ADMIN_POLICY, GROUP_NAME_ADMIN, true)
  ∧ (load_groups system_groups_document).1 !! "system-admin"
    = Some _system_admin_group.
Proof.
  assert (group_dict "system-admin" "Admins" (Some "none")
            ∈ default [] (doc_groups system_groups_document)) as Hin
    by (by left).
  split; [exact Hin|].
  destruct (system_group_record_loads_hardcoded system_groups_document
              (group_dict "system-admin" "Admins" (Some "none")) Hin)
    as (Ha & _).
  exact (Ha eq_refl).
Defined.


(** C6 at user [a] of the store loaded from the old document. *)
Lemma async_remove_user_cascades_witness :
  index_consistent (loaded (Some old_document))
  ∧ ∃ u, _users (loaded (Some old_document)) !! "a" = Some u
    ∧ ∃ s', async_remove_user (loaded (Some old_document)) "a" = (Ok (), s')
      ∧ _users s' !! "a" = None
      ∧ (∀ t, is_Some (user_refresh_tokens u !! t) →
              _token_id_to_user_id s' !! t = None).
Proof.
  split; [apply old_document_store_wf|].
  eexists. split; [vm_compute; reflexivity|].
  destruct (async_remove_user_cascades (loaded (Some old_document)) "a" _
              (proj1 old_document_store_wf) eq_refl)
    as (s' & Hrun & Hgone & _ & Htok & _).
  exists s'. by repeat split.
Defined.

(** C6 needs the index to be consistent: after a load of a document with
    one token id under two users, removing the first user takes the id
    out of the index although the second user, who is not removed, holds a
    token with that id. *)
Lemma shared_token_id_breaks_cascade :
  async_load __init__ (Some shared_token_document)
  = (Ok (), loaded (Some shared_token_document))
  ∧ is_Some (_users (loaded (Some shared_token_document)) !! "a")
  ∧ (∃ u, _users (loaded (Some shared_token_document)) !! "b" = Some u
          ∧ is_Some (user_refresh_tokens u !! "t"))
  ∧ ∃ s', async_remove_user (loaded (Some shared_token_document)) "a"
          = (Ok (), s')
      ∧ _token_id_to_user_id s' !! "t" = None.
Proof.
  split; [by vm_compute|]. split; [by eexists|]. split.
  - eexists. split; [vm_compute; reflexivity|]. by eexists.
  - eexists. split; [vm_compute; reflexivity|]. by vm_compute.
Qed.

(** C7 at a user whose id is the empty string: its token is in the index,
    and removing the token changes nothing. *)
Theorem async_remove_refresh_token_empty_user_id :
  async_load __init__ (Some empty_id_document)
  = (Ok (), loaded (Some empty_id_document))
  ∧ _token_id_to_user_id (loaded (Some empty_id_document)) !! "t" = Some ""
  ∧ (∃ u, _users (loaded (Some empty_id_document)) !! "" = Some u
          ∧ is_Some (user_refresh_tokens u !! "t"))
  ∧ async_remove_refresh_token (loaded (Some empty_id_document)) "t"
    = (Ok (), loaded (Some empty_id_document)).
Proof.
  split; [by vm_compute|]. split; [by vm_compute|]. split.
  - eexists. split; [vm_compute; reflexivity|]. by eexists.
  - by vm_compute.
Qed.

(** C8 at an update that names a group the store does not have. *)
Lemma async_update_user_unknown_group_witness :
  "family" ∈ ["system-admin"; "family"]
  ∧ _groups store_with_plain_user !! "family" = None
  ∧ async_update_user store_with_plain_user "u" (Some "Anne") (Some false)
      (Some ["system-admin"; "family"]) (Some true)
    = (Raise ValueError, store_with_plain_user).
Proof.
  assert ("family" ∈ ["system-admin"; "family"]) as Hin
    by (right; by left).
  assert (_groups store_with_plain_user !! "family" = None) as Hnone
    by (by vm_compute).
  split; [exact Hin|]. split; [exact Hnone|].
  exact (async_update_user_unknown_group store_with_plain_user "u"
           (Some "Anne") (Some false) ["system-admin"; "family"] (Some true)
           "family" Hin Hnone).
Defined.

(** C10 at a document with a group without policy and a member of it. *)
Lemma membership_in_quarantined_group_aborts_load_witness :
  _loaded __init__ = false
  ∧ group_dict "family" "Family" None
      ∈ default [] (doc_groups quarantine_document)
  ∧ user_dict "a" false (Some ["family"]) ∈ doc_users quarantine_document
  ∧ (_initialize_groups quarantine_document ∅).1 !! "family" = None
  ∧ is_Some (group_without_policy (_initialize_groups quarantine_document ∅).2)
  ∧ async_load __init__ (Some quarantine_document)
    = (Raise KeyError, set_loaded true __init__).
Proof.
  assert (group_dict "family" "Family" None
            ∈ default [] (doc_groups quarantine_document)) as Hgd
    by (by left).
  assert (user_dict "a" false (Some ["family"])
            ∈ doc_users quarantine_document) as Hud by (by left).
  split; [done|]. split; [exact Hgd|]. split; [exact Hud|].
  apply (membership_in_quarantined_group_aborts_load __init__
           quarantine_document (group_dict "family" "Family" None)
           (user_dict "a" false (Some ["family"])) eq_refl Hgd);
    [|exact Hud|by left].
  intros gd' Hgd' _. apply list_elem_of_singleton in Hgd' as ->.
  by repeat split.
Defined.

(** ** Further properties on the sample data *)


Lemma credential_of_unknown_user_aborts_load_witness :
  _loaded __init__ = false
  ∧ cred_dict "c" "z" ∈ doc_credentials orphan_credential_document
  ∧ (∀ ud, ud ∈ doc_users orphan_credential_document →
       ud_id ud ≠ cd_user_id (cred_dict "c" "z"))
  ∧ async_load __init__ (Some orphan_credential_document)
    = (Raise KeyError, set_loaded true __init__).
Proof.
  assert (∀ ud, ud ∈ doc_users orphan_credential_document →
            ud_id ud ≠ cd_user_id (cred_dict "c" "z")) as Hno.
  { intros ud Hud. apply list_elem_of_singleton in Hud as ->. done. }
  split; [reflexivity|]. split; [by left|]. split; [exact Hno|].
  apply (credential_of_unknown_user_aborts_load __init__
           orphan_credential_document (cred_dict "c" "z"));
    [reflexivity|by left|exact Hno].
Defined.


Lemma data_to_save_is_closed_witness :
  store_wf (loaded (Some old_document))
  ∧ token_ids_unshared (_data_to_save (loaded (Some old_document))).
Proof.
  split; [apply old_document_store_wf|].
  apply (data_to_save_is_closed (loaded (Some old_document))
           old_document_store_wf).
Defined.

Lemma saved_document_is_not_migrated_again_witness :
  async_load __init__ (Some old_document)
  = (Ok (), loaded (Some old_document))
  ∧ (load_groups
       (_data_to_save (foldl perform (loaded (Some old_document))
                         sample_run))).2 = false.
Proof.
  split; [apply old_document_loads|].
  apply (saved_document_is_not_migrated_again __init__ (Some old_document)
           (loaded (Some old_document)) sample_run old_document_loads).
Defined.


Lemma async_create_user_unknown_group_witness :
  "family" ∈ ["system-users"; "family"]
  ∧ _groups (loaded None) !! "family" = None
  ∧ async_create_user (loaded None) "u" (Some "Paulus") None None None None
      (Some ["system-users"; "family"]) None
    = (Raise ValueError, loaded None).
Proof.
  assert ("family" ∈ ["system-users"; "family"]) as Hin
    by (right; left).
  assert (_groups (loaded None) !! "family" = None) as Hnone
    by (vm_compute; reflexivity).
  split; [exact Hin|]. split; [exact Hnone|].
  apply (async_create_user_unknown_group (loaded None) "u" (Some "Paulus")
           None None None None ["system-users"; "family"] None "family"
           Hin Hnone).
Defined.


Lemma async_create_user_then_remove_witness :
  _users (loaded None) !! "u" = None
  ∧ Forall2 (λ i g, _groups (loaded None) !! i = Some g)
      (default [] (Some ["system-users"])) [_system_user_group]
  ∧ ∃ s', async_remove_user
            (async_create_user (loaded None) "u" (Some "Paulus") None
               (Some true) None None (Some ["system-users"]) None).2 "u"
          = (Ok (), s')
      ∧ _users s' = _users (loaded None)
      ∧ _groups s' = _groups (loaded None)
      ∧ _token_id_to_user_id s' = _token_id_to_user_id (loaded None)
      ∧ save_requests s'
        = save_requests (loaded None)
          ++ [DEFAULT_SAVE_DELAY; DEFAULT_SAVE_DELAY].
Proof.
  assert (_users (loaded None) !! "u" = None) as Hnew
    by (vm_compute; reflexivity).
  assert (Forall2 (λ i g, _groups (loaded None) !! i = Some g)
            (default [] (Some ["system-users"])) [_system_user_group])
    as Hgs.
  { repeat constructor. }
  split; [exact Hnew|]. split; [exact Hgs|].
  apply (async_create_user_then_remove (loaded None) "u" (Some "Paulus")
           None (Some true) None None (Some ["system-users"]) None
           [_system_user_group] Hnew Hgs).
Defined.

Lemma async_update_user_known_groups_witness :
  ∃ u, _users store_with_plain_user !! "u" = Some u
    ∧ option_Forall2
        (Forall2 (λ i g, _groups store_with_plain_user !! i = Some g))
        (Some ["system-read-only"]) (Some [_system_read_only_group])
    ∧ ∃ s', async_update_user store_with_plain_user "u" None (Some false)
              (Some ["system-read-only"]) None = (Ok (), s')
        ∧ _users s'
          = <[ "u" := updated_user None (Some false)
                        (Some [_system_read_only_group]) None u ]>
              (_users store_with_plain_user).
Proof.
  eassert (_users store_with_plain_user !! "u" = Some _) as Hu
    by (vm_compute; reflexivity).
  assert (option_Forall2
            (Forall2 (λ i g, _groups store_with_plain_user !! i = Some g))
            (Some ["system-read-only"]) (Some [_system_read_only_group]))
    as Hgs.
  { repeat constructor. }
  eexists. split; [exact Hu|]. split; [exact Hgs|].
  destruct (async_update_user_known_groups store_with_plain_user "u" _ None
              (Some false) (Some ["system-read-only"]) None
              (Some [_system_read_only_group]) Hu Hgs)
    as (s' & Hup & Husers & _).
  by exists s'.
Defined.

Lemma async_get_refresh_token_consistent_witness :
  index_consistent (loaded (Some old_document))
  ∧ ∃ r, async_get_refresh_token (loaded (Some old_document)) "t" = Ok r
    ∧ (∀ t, r = Some t →
         ∃ k u, k ≠ "" ∧ _users (loaded (Some old_document)) !! k = Some u
                ∧ user_refresh_tokens u !! "t" = Some t)
    ∧ (∀ k u t, k ≠ "" → _users (loaded (Some old_document)) !! k = Some u →
         user_refresh_tokens u !! "t" = Some t → r = Some t).
Proof.
  split; [apply old_document_store_wf|].
  apply (async_get_refresh_token_consistent (loaded (Some old_document)) "t"
           (proj1 old_document_store_wf)).
Defined.

Lemma async_create_refresh_token_then_get_witness :
  ∃ u, _users store_with_plain_user !! "u" = Some u
    ∧ user_id u = "u" ∧ "u" ≠ ""
    ∧ ∃ t s',
        async_create_refresh_token store_with_plain_user generated "u"
          (Some "https://example.com") None None TOKEN_TYPE_NORMAL 1800%Z
          None None = (Ok t, s')
        ∧ async_get_refresh_token s' "w" = Ok (Some t).
Proof.
  eassert (_users store_with_plain_user !! "u" = Some _) as Hu
    by (vm_compute; reflexivity).
  eexists. split; [exact Hu|]. split; [reflexivity|]. split; [done|].
  destruct (async_create_refresh_token_then_get store_with_plain_user
              generated "u" _ (Some "https://example.com") None None
              TOKEN_TYPE_NORMAL 1800%Z None None Hu eq_refl
              ltac:(discriminate))
    as (t & s' & Hc & _ & _ & _ & _ & _ & _ & _ & Hget & _).
  by exists t, s'.
Defined.

Lemma async_create_refresh_token_then_remove_witness :
  index_consistent (loaded (Some old_document))
  ∧ is_Some (_users (loaded (Some old_document)) !! "a")
  ∧ "a" ≠ ""
  ∧ _token_id_to_user_id (loaded (Some old_document)) !! gen_id generated
    = None
  ∧ ∃ s', async_remove_refresh_token
            (async_create_refresh_token (loaded (Some old_document))
               generated "a" None None None TOKEN_TYPE_NORMAL 1800%Z None
               None).2 (gen_id generated) = (Ok (), s')
      ∧ _users s' = _users (loaded (Some old_document))
      ∧ _token_id_to_user_id s'
        = _token_id_to_user_id (loaded (Some old_document))
      ∧ save_requests s'
        = save_requests (loaded (Some old_document))
          ++ [DEFAULT_SAVE_DELAY; DEFAULT_SAVE_DELAY].
Proof.
  assert (is_Some (_users (loaded (Some old_document)) !! "a")) as Hu
    by (eexists; vm_compute; reflexivity).
  assert (_token_id_to_user_id (loaded (Some old_document))
            !! gen_id generated = None) as Hfresh
    by (vm_compute; reflexivity).
  split; [apply old_document_store_wf|]. split; [exact Hu|].
  split; [done|]. split; [exact Hfresh|].
  apply (async_create_refresh_token_then_remove (loaded (Some old_document))
           generated "a" None None None TOKEN_TYPE_NORMAL 1800%Z None None
           (proj1 old_document_store_wf) Hu ltac:(discriminate) Hfresh).
Defined.

Lemma async_get_refresh_tokens_lists_index_witness :
  store_wf (loaded (Some old_document))
  ∧ length (async_get_refresh_tokens (loaded (Some old_document)))
    = size (_token_id_to_user_id (loaded (Some old_document))).
Proof.
  split; [apply old_document_store_wf|].
  apply (async_get_refresh_tokens_lists_index (loaded (Some old_document))
           old_document_store_wf).
Defined.

Lemma async_set_expiry_spec_witness :
  ∃ t, token_of (loaded (Some old_document)) "a" "t" = Some t
    ∧ ∃ s', async_set_expiry (loaded (Some old_document)) "2024-03-03" "a"
              "t" true = Some (Ok (), s')
        ∧ (rt_expire_at t = None →
           rt_expire_at <$> token_of s' "a" "t" = Some (Some 7776010%Z)).
Proof.
  eassert (token_of (loaded (Some old_document)) "a" "t" = Some _) as Ht
    by (vm_compute; reflexivity).
  eexists. split; [exact Ht|].
  destruct (async_set_expiry_spec (loaded (Some old_document)) "2024-03-03"
              "a" "t" true _ Ht)
    as (s' & Hset & _ & Henable & _).
  exists s'. split; [exact Hset|].
  intros Hnone. by destruct (Henable eq_refl Hnone) as [-> _].
Defined.

Lemma async_set_expiry_enable_twice_witness :
  ∃ s1, async_set_expiry (loaded (Some old_document)) "2024-03-03" "a" "t"
          true = Some (Ok (), s1)
    ∧ async_set_expiry s1 "2025-05-05T00:00" "a" "t" true
      = Some (Ok (), s1).
Proof.
  eassert (async_set_expiry (loaded (Some old_document)) "2024-03-03" "a"
             "t" true = Some (Ok (), _)) as Hset
    by (vm_compute; reflexivity).
  eexists. split; [exact Hset|].
  exact (async_set_expiry_enable_twice (loaded (Some old_document)) _
           "2024-03-03" "2025-05-05T00:00" "a" "t" (Ok ()) Hset).
Defined.

Lemma async_log_refresh_token_usage_spec_witness :
  ∃ t, token_of (loaded (Some old_document)) "a" "t" = Some t
    ∧ ∃ t',
        token_of (async_log_refresh_token_usage (loaded (Some old_document))
                    "2024-03-03" "a" "t" (Some "192.0.2.1")).2 "a" "t"
        = Some t'
        ∧ rt_last_used_at t' = Some "2024-03-03"
        ∧ rt_last_used_ip t' = Some "192.0.2.1".
Proof.
  eassert (token_of (loaded (Some old_document)) "a" "t" = Some _) as Ht
    by (vm_compute; reflexivity).
  eexists. split; [exact Ht|].
  destruct (async_log_refresh_token_usage_spec (loaded (Some old_document))
              "2024-03-03" "a" "t" (Some "192.0.2.1") _ Ht)
    as (t' & Ht' & Hat & Hip & _).
  by exists t'.
Defined.

Lemma system_groups_are_always_found_witness :
  async_load __init__ (Some old_document)
  = (Ok (), loaded (Some old_document))
  ∧ async_get_group (foldl perform (loaded (Some old_document)) sample_run)
      "system-admin" = Some _system_admin_group.
Proof.
  split; [apply old_document_loads|].
  apply (system_groups_are_always_found __init__ (Some old_document)
           (loaded (Some old_document)) sample_run old_document_loads).
Defined.

Lemma index_consistent_under_user_changes_witness :
  index_consistent (loaded (Some old_document))
  ∧ index_consistent
      (async_update_user (loaded (Some old_document)) "a" (Some "Anne")
         (Some false) (Some ["system-read-only"]) None).2
  ∧ index_consistent
      (async_remove_credentials (loaded (Some old_document))
         (λ k i, String.eqb k "a" && Nat.eqb i 0)).2.
Proof.
  split; [apply old_document_store_wf|].
  destruct (index_consistent_under_user_changes (loaded (Some old_document))
              "a" (Some "Anne") (Some false) (Some ["system-read-only"]) None
              (λ k i, String.eqb k "a" && Nat.eqb i 0)
              (proj1 old_document_store_wf))
    as (Hupdate & _ & _ & Hremove).
  by split.
Defined.
